(** * Verification of [preprocess.py]: enrichment and tag unification of
      Instagram posts

    The development embeds the four functions of [preprocess.py]
    ([clean_json_response], [extract_metadata], [get_unified_tags] and
    [process_posts]) together with the fragments of Python they rely on
    (JSON values, [str.find], [str.rfind], slicing, [dict] union, [set]
    iteration, [json.loads]) and proves the properties of the pipeline.

    Conventions of the embedding:
    - a Python [str] is a [string]; its characters are the 256 values of
      [ascii];
    - a Python [int] is a [Z]; a [float] is kept as the literal it was read
      from, since no operation of the program computes with it;
    - a [dict] is a list of key/value pairs in insertion order with unique
      keys, as [dict] iteration and [json.dump] observe it;
    - a [set] is kept as the list of the values added to it; the order
      in which it is iterated is a parameter ([set_iter]) of which only
      the properties [python_set] are assumed;
    - exceptions are values of type [exn]; a computation returns an
      [outcome];
    - the file system, the standard output and the calls to the language
      model are the fields of a [world] threaded through the program;
    - the language model is a parameter ([llm]): any function from the
      number of earlier calls and the input of the chain to a response.

    The first part holds the definitions, the second part the
    properties. *)

From Stdlib Require Import List ZArith Lia Bool Ascii String Permutation.
Import ListNotations.

Local Open Scope string_scope.
Local Open Scope Z_scope.

(** ** Python values *)

Module Py.

(** The values [json.loads] can build. *)
#[warnings="-register-all"]
Inductive value : Type :=
| VNone
| VBool (b : bool)
| VInt (n : Z)
| VFloat (literal : string)
| VStr (s : string)
| VList (items : list value)
| VDict (entries : list (string * value)).

Definition dict := list (string * value).

(** The exceptions of the program. [Unrepresentable] is not one of
    Python: it marks a text that has a character outside the alphabet of
    the embedding. *)
Inductive exn : Type :=
| OutputParserException (msg : string)
| JSONDecodeError
| FileNotFoundError (path : string)
| OSError
| KeyError (key : string)
| TypeError
| AttributeError
| RecursionError
| Unrepresentable.

Inductive outcome (A : Type) : Type :=
| Ret (a : A)
| Raise (e : exn).
Arguments Ret {A} a.
Arguments Raise {A} e.

Definition obind {A B} (m : outcome A) (k : A -> outcome B) : outcome B :=
  match m with
  | Ret a => k a
  | Raise e => Raise e
  end.

(** *** Characters and text *)

Definition dquote : ascii := ascii_of_nat 34.
Definition backslash : ascii := ascii_of_nat 92.
Definition newline : ascii := ascii_of_nat 10.
Definition nl : string := String newline EmptyString.

Definition chars (s : string) : list ascii := list_ascii_of_string s.
Definition text (l : list ascii) : string := string_of_list_ascii l.

(** [s.find(c)]: index of the first occurrence of [c], or -1. *)
Fixpoint find_from (c : ascii) (l : list ascii) (i : Z) : Z :=
  match l with
  | [] => -1
  | x :: r => if Ascii.eqb x c then i else find_from c r (i + 1)
  end.

Definition find (s : string) (c : ascii) : Z := find_from c (chars s) 0.

(** [s.rfind(c)]: index of the last occurrence of [c], or -1. *)
Fixpoint rfind_from (c : ascii) (l : list ascii) (i best : Z) : Z :=
  match l with
  | [] => best
  | x :: r => rfind_from c r (i + 1) (if Ascii.eqb x c then i else best)
  end.

Definition rfind (s : string) (c : ascii) : Z := rfind_from c (chars s) 0 (-1).

(** Slice bounds as Python normalises them: a negative index counts from
    the end, and both ends are clamped to [0, len]. *)
Definition clamp (len i : Z) : Z :=
  if i <? 0 then Z.max 0 (i + len) else Z.min i len.

Definition slice_list {A} (l : list A) (start stop : Z) : list A :=
  let len := Z.of_nat (List.length l) in
  let a := clamp len start in
  let b := clamp len stop in
  firstn (Z.to_nat (b - a)) (skipn (Z.to_nat a) l).

(** [s[start:stop]] *)
Definition slice (s : string) (start stop : Z) : string :=
  text (slice_list (chars s) start stop).

(** [sep.join(items)] *)
Fixpoint join (sep : string) (items : list string) : string :=
  match items with
  | [] => ""
  | [x] => x
  | x :: r => x ++ sep ++ join sep r
  end.

(** *** Dictionaries *)

Fixpoint dict_get (d : dict) (k : string) : option value :=
  match d with
  | [] => None
  | (k', v) :: r => if String.eqb k' k then Some v else dict_get r k
  end.

(** [d[k] = v]: an existing key keeps its position, a new key goes last. *)
Fixpoint dict_set (d : dict) (k : string) (v : value) : dict :=
  match d with
  | [] => [(k, v)]
  | (k', v') :: r =>
      if String.eqb k' k then (k', v) :: r else (k', v') :: dict_set r k v
  end.

(** [dict(pairs)] and [d.update(pairs)]: the pairs are set from left to
    right. *)
Definition dict_update (d : dict) (pairs : list (string * value)) : dict :=
  fold_left (fun acc kv => dict_set acc (fst kv) (snd kv)) pairs d.

(** [a | b] on dictionaries: a new dictionary with the entries of [a]
    updated by those of [b]. *)
Definition dict_or (a b : dict) : dict := dict_update a b.

Definition keys (d : dict) : list string := map fst d.

End Py.
Import Py.

(** ** [json.loads] *)

Module Json.

(** Result of a scanning function: the value read and the remaining
    input, a syntax error, a text that has a character outside the
    alphabet of the embedding (a [\u] escape above code 255), or not
    enough fuel. *)
Inductive presult (A : Type) : Type :=
| Parsed (a : A) (rest : list ascii)
| Invalid
| Unsupported
| OutOfFuel.
Arguments Parsed {A} a rest.
Arguments Invalid {A}.
Arguments Unsupported {A}.
Arguments OutOfFuel {A}.

Definition pbind {A B} (r : presult A) (k : A -> list ascii -> presult B)
  : presult B :=
  match r with
  | Parsed a rest => k a rest
  | Invalid => Invalid
  | Unsupported => Unsupported
  | OutOfFuel => OutOfFuel
  end.

Definition is_ws (c : ascii) : bool :=
  match nat_of_ascii c with
  | 32%nat | 9%nat | 10%nat | 13%nat => true
  | _ => false
  end.

Fixpoint skip_ws (l : list ascii) : list ascii :=
  match l with
  | c :: r => if is_ws c then skip_ws r else l
  | [] => []
  end.

Definition is_digit (c : ascii) : bool :=
  let n := nat_of_ascii c in (48 <=? n)%nat && (n <=? 57)%nat.

Definition digit_val (c : ascii) : Z := Z.of_nat (nat_of_ascii c) - 48.

Fixpoint span_digits (l : list ascii) : list ascii * list ascii :=
  match l with
  | c :: r =>
      if is_digit c then let (ds, rest) := span_digits r in (c :: ds, rest)
      else ([], l)
  | [] => ([], [])
  end.

Definition Z_of_digits (ds : list ascii) : Z :=
  fold_left (fun acc c => 10 * acc + digit_val c) ds 0.

Definition hex_val (c : ascii) : option nat :=
  let n := nat_of_ascii c in
  if ((48 <=? n) && (n <=? 57))%nat then Some (n - 48)%nat
  else if ((65 <=? n) && (n <=? 70))%nat then Some (n - 55)%nat
  else if ((97 <=? n) && (n <=? 102))%nat then Some (n - 87)%nat
  else None.

(** The code of the four hexadecimal digits of a [\uXXXX] escape. *)
Definition hex4 (a b c d : ascii) : option nat :=
  match hex_val a, hex_val b, hex_val c, hex_val d with
  | Some x, Some y, Some z, Some w => Some (((x * 16 + y) * 16 + z) * 16 + w)%nat
  | _, _, _, _ => None
  end.

Definition simple_escape (c : ascii) : option ascii :=
  match nat_of_ascii c with
  | 34%nat => Some dquote
  | 92%nat => Some backslash
  | 47%nat => Some "/"%char
  | 98%nat => Some (ascii_of_nat 8)
  | 102%nat => Some (ascii_of_nat 12)
  | 110%nat => Some newline
  | 114%nat => Some (ascii_of_nat 13)
  | 116%nat => Some (ascii_of_nat 9)
  | _ => None
  end.

(** The body of a string literal, after its opening quote (strict mode:
    a raw control character is an error). *)
Fixpoint scan_string (l : list ascii) : presult (list ascii) :=
  match l with
  | [] => Invalid
  | c :: r =>
      if Ascii.eqb c dquote then Parsed [] r
      else if Ascii.eqb c backslash then
        match r with
        | [] => Invalid
        | e :: r' =>
            if Ascii.eqb e "u" then
              match r' with
              | a :: b :: c' :: d :: r'' =>
                  match hex4 a b c' d with
                  | Some n =>
                      if (n <? 256)%nat then
                        pbind (scan_string r'')
                          (fun s rest => Parsed (ascii_of_nat n :: s) rest)
                      else Unsupported
                  | None => Invalid
                  end
              | _ => Invalid
              end
            else
              match simple_escape e with
              | Some x => pbind (scan_string r') (fun s rest => Parsed (x :: s) rest)
              | None => Invalid
              end
        end
      else if (nat_of_ascii c <? 32)%nat then Invalid
      else pbind (scan_string r) (fun s rest => Parsed (c :: s) rest)
  end.

(** A number: an optional minus sign, then either a single 0 or a digit
    from 1 to 9 followed by digits; then optionally a dot and one or more
    digits; then optionally e or E, an optional sign and one or more
    digits. It is an [int] when neither the fraction nor the exponent is
    there, a [float] otherwise. *)
Definition scan_int_part (l : list ascii) : option (list ascii * list ascii) :=
  match l with
  | c :: r =>
      if Ascii.eqb c "0" then Some ([c], r)
      else if is_digit c then let (ds, rest) := span_digits r in Some (c :: ds, rest)
      else None
  | [] => None
  end.

Definition scan_frac (l : list ascii) : list ascii * list ascii :=
  match l with
  | c :: r =>
      if Ascii.eqb c "." then
        match span_digits r with
        | ([], _) => ([], l)
        | (ds, rest) => (c :: ds, rest)
        end
      else ([], l)
  | [] => ([], [])
  end.

Definition scan_exp (l : list ascii) : list ascii * list ascii :=
  match l with
  | e :: r =>
      if Ascii.eqb e "e" || Ascii.eqb e "E" then
        let (sign, r') :=
          match r with
          | s :: r0 =>
              if Ascii.eqb s "-" || Ascii.eqb s "+" then ([s], r0) else ([], r)
          | [] => ([], r)
          end in
        match span_digits r' with
        | ([], _) => ([], l)
        | (ds, rest) => ((e :: sign ++ ds)%list, rest)
        end
      else ([], l)
  | [] => ([], [])
  end.

Definition scan_number (l : list ascii) : option (value * list ascii) :=
  let (neg, l') :=
    match l with
    | c :: r => if Ascii.eqb c "-" then (true, r) else (false, l)
    | [] => (false, l)
    end in
  match scan_int_part l' with
  | None => None
  | Some (ds, r1) =>
      let (frac, r2) := scan_frac r1 in
      let (ex, r3) := scan_exp r2 in
      match frac, ex with
      | [], [] => Some (VInt (if neg then - Z_of_digits ds else Z_of_digits ds), r3)
      | _, _ =>
          Some (VFloat (text ((if neg then ["-"%char] else []) ++ ds ++ frac ++ ex)%list), r3)
      end
  end.

(** [strip_prefix p l] is the rest of [l] after the prefix [p]. *)
Fixpoint strip_prefix (p l : list ascii) : option (list ascii) :=
  match p, l with
  | [], _ => Some l
  | a :: p', b :: l' => if Ascii.eqb a b then strip_prefix p' l' else None
  | _ :: _, [] => None
  end.

(** The values that are neither strings, objects nor arrays, in the
    order in which the scanner tries them. *)
Definition scan_literal (l : list ascii) : option (value * list ascii) :=
  match strip_prefix (chars "null") l with
  | Some r => Some (VNone, r)
  | None =>
  match strip_prefix (chars "true") l with
  | Some r => Some (VBool true, r)
  | None =>
  match strip_prefix (chars "false") l with
  | Some r => Some (VBool false, r)
  | None =>
  match scan_number l with
  | Some res => Some res
  | None =>
  match strip_prefix (chars "NaN") l with
  | Some r => Some (VFloat "NaN", r)
  | None =>
  match strip_prefix (chars "Infinity") l with
  | Some r => Some (VFloat "Infinity", r)
  | None =>
  match strip_prefix (chars "-Infinity") l with
  | Some r => Some (VFloat "-Infinity", r)
  | None => None
  end end end end end end end.

(** The scanner. [scan_once] reads one value; [scan_items] reads the
    values of an array from the first character of one of them up to the
    closing bracket; [scan_members] reads the members of an object from
    the body of one of its keys up to the closing brace. Every call
    spends one unit of fuel. *)
Fixpoint scan_once (fuel : nat) (l : list ascii) : presult value :=
  match fuel with
  | O => OutOfFuel
  | S fuel =>
      match l with
      | [] => Invalid
      | c :: r =>
          if Ascii.eqb c dquote then
            pbind (scan_string r) (fun s rest => Parsed (VStr (text s)) rest)
          else if Ascii.eqb c "{" then
            match skip_ws r with
            | c' :: r' =>
                if Ascii.eqb c' "}" then Parsed (VDict []) r'
                else if Ascii.eqb c' dquote then
                  pbind (scan_members fuel [] r') (fun d rest => Parsed (VDict d) rest)
                else Invalid
            | [] => Invalid
            end
          else if Ascii.eqb c "[" then
            match skip_ws r with
            | c' :: r' =>
                if Ascii.eqb c' "]" then Parsed (VList []) r'
                else
                  pbind (scan_items fuel [] (c' :: r'))
                    (fun vs rest => Parsed (VList vs) rest)
            | [] => Invalid
            end
          else
            match scan_literal l with
            | Some (v, rest) => Parsed v rest
            | None => Invalid
            end
      end
  end

with scan_items (fuel : nat) (acc : list value) (l : list ascii)
  : presult (list value) :=
  match fuel with
  | O => OutOfFuel
  | S fuel =>
      pbind (scan_once fuel l) (fun v rest =>
        match skip_ws rest with
        | c :: r =>
            if Ascii.eqb c "]" then Parsed (acc ++ [v])%list r
            else if Ascii.eqb c "," then scan_items fuel (acc ++ [v])%list (skip_ws r)
            else Invalid
        | [] => Invalid
        end)
  end

with scan_members (fuel : nat) (acc : dict) (l : list ascii) : presult dict :=
  match fuel with
  | O => OutOfFuel
  | S fuel =>
      pbind (scan_string l) (fun k rest =>
        match skip_ws rest with
        | c :: r =>
            if Ascii.eqb c ":" then
              pbind (scan_once fuel (skip_ws r)) (fun v rest' =>
                match skip_ws rest' with
                | c' :: r' =>
                    if Ascii.eqb c' "}" then Parsed (dict_set acc (text k) v) r'
                    else if Ascii.eqb c' "," then
                      match skip_ws r' with
                      | q :: r'' =>
                          if Ascii.eqb q dquote then
                            scan_members fuel (dict_set acc (text k) v) r''
                          else Invalid
                      | [] => Invalid
                      end
                    else Invalid
                | [] => Invalid
                end)
            else Invalid
        | [] => Invalid
        end)
  end.

(** [json.loads(s)]: one value between optional blanks, and nothing
    else. The fuel is enough for every text ([loads_fuel] below). *)
Definition loads (s : string) : outcome value :=
  let l := chars s in
  match scan_once (S (2 * List.length l)) (skip_ws l) with
  | Parsed v rest =>
      match skip_ws rest with
      | [] => Ret v
      | _ :: _ => Raise JSONDecodeError
      end
  | Invalid => Raise JSONDecodeError
  | Unsupported => Raise Unrepresentable
  | OutOfFuel => Raise RecursionError
  end.

End Json.

(** ** [clean_json_response] *)

(** [[
def clean_json_response(response):
    try:
        start = response.find('{')
        end = response.rfind('}') + 1
        return json.loads(response[start:end])
    except json.JSONDecodeError:
        raise OutputParserException(f"Invalid JSON content:\n{response}")
]] *)
Definition clean_json_response (response : string) : outcome value :=
  let start := find response "{" in
  let end_ := rfind response "}" + 1 in
  match Json.loads (slice response start end_) with
  | Raise JSONDecodeError =>
      Raise (OutputParserException ("Invalid JSON content:" ++ nl ++ response))
  | r => r
  end.

(** Text written with apostrophes where the JSON has double quotes. *)
Definition jq (s : string) : string :=
  text (map (fun c => if Ascii.eqb c "'" then dquote else c) (chars s)).

(** ** Dynamic operations on values *)

Module Dyn.

(** [for x in v] *)
Definition iter (v : value) : outcome (list value) :=
  match v with
  | VList items => Ret items
  | VStr s => Ret (map (fun c => VStr (String c EmptyString)) (chars s))
  | VDict d => Ret (map VStr (keys d))
  | _ => Raise TypeError
  end.

(** [k in v], for a text [k] *)
Definition contains (v : value) (k : string) : outcome bool :=
  match v with
  | VDict d => Ret (match dict_get d k with Some _ => true | None => false end)
  | VList items =>
      Ret (existsb (fun x => match x with VStr s => String.eqb s k | _ => false end)
             items)
  | VStr s => Ret (match String.index 0 k s with Some _ => true | None => false end)
  | _ => Raise TypeError
  end.

(** [v[k]], for a text [k] *)
Definition getitem (v : value) (k : string) : outcome value :=
  match v with
  | VDict d =>
      match dict_get d k with
      | Some x => Ret x
      | None => Raise (KeyError k)
      end
  | _ => Raise TypeError
  end.

(** [v[k] = x], for a text [k] *)
Definition setitem (v : value) (k : string) (x : value) : outcome value :=
  match v with
  | VDict d => Ret (VDict (dict_set d k x))
  | _ => Raise TypeError
  end.

(** [v[:n]]. Slicing a [dict] raises ([TypeError] up to Python 3.11). *)
Definition prefix (v : value) (n : Z) : outcome value :=
  match v with
  | VStr s => Ret (VStr (slice s 0 n))
  | VList items => Ret (VList (slice_list items 0 n))
  | _ => Raise TypeError
  end.

(** [a | b] *)
Definition or_ (a b : value) : outcome value :=
  match a, b with
  | VDict x, VDict y => Ret (VDict (dict_or x y))
  | _, _ => Raise TypeError
  end.

(** Lists and dictionaries cannot be members of a [set] or keys. *)
Definition hashable (v : value) : bool :=
  match v with
  | VList _ | VDict _ => false
  | _ => true
  end.

Definition check_hashable (v : value) : outcome value :=
  if hashable v then Ret v else Raise TypeError.

Definition as_str (v : value) : outcome string :=
  match v with
  | VStr s => Ret s
  | _ => Raise TypeError
  end.

Definition is_str (v : value) : Prop := exists s, v = VStr s.

(** [[f(x) for x in l]], stopping at the first exception. *)
Fixpoint traverse {A B} (f : A -> outcome B) (l : list A) : outcome (list B) :=
  match l with
  | [] => Ret []
  | x :: r => obind (f x) (fun y => obind (traverse f r) (fun ys => Ret (y :: ys)))
  end.

(** [m.get(k, k)]: the keys of [m] are texts, so any other hashable [k]
    is absent. *)
Definition get_or_self (m : value) (k : value) : outcome value :=
  match m with
  | VDict d =>
      match k with
      | VStr s =>
          match dict_get d s with
          | Some v => Ret v
          | None => Ret k
          end
      | _ => check_hashable k
      end
  | _ => Raise AttributeError
  end.

End Dyn.
Import Dyn.

(** ** The world: files, standard output, calls to the model *)

(** What [chain.invoke] receives: the template is fixed by the calling
    function and its single variable is given here. *)
Inductive chain_input : Type :=
| ExtractionInput (post : value)
| UnificationInput (tags : string).

(** The lines [print] writes; the fields are the values interpolated in
    the message. *)
Inductive diagnostic : Type :=
| ErrorReadingRawPosts (e : exn)
| SkippingPostWithoutCaption (post : value)
| FailedToParseResponse (post_preview : value) (response : string)
| ErrorExtractingMetadata (caption_preview : value) (e : exn)
| NoEnrichedPosts
| FailedToParseUnifiedTags (response : string)
| ErrorUnifyingTags (e : exn)
| ErrorWritingProcessedPosts (e : exn).

(** A file holds a text, or what [json.dump(v, outfile, indent=4)] wrote,
    or the beginning of such a dump cut short by a failed write. *)
Inductive file : Type :=
| Text (content : string)
| Dump (v : value)
| Truncated.

(** What goes wrong when a path is opened for writing. *)
Inductive fault : Type :=
| OpenFails
| WriteFails.

Record world : Type := World {
  files : string -> option file;
  faults : string -> option fault;
  stdout : list diagnostic;
  calls : list chain_input
}.

Definition put_line (d : diagnostic) (w : world) : world :=
  World (files w) (faults w) (stdout w ++ [d]) (calls w).

Definition record_call (x : chain_input) (w : world) : world :=
  World (files w) (faults w) (stdout w) (calls w ++ [x]).

Definition put_file (path : string) (f : file) (w : world) : world :=
  World (fun p => if String.eqb p path then Some f else files w p)
        (faults w) (stdout w) (calls w).

(** Computations: state passing over the world, with exceptions. *)
Definition M (A : Type) : Type := world -> outcome A * world.

Definition ret {A} (a : A) : M A := fun w => (Ret a, w).
Definition raise {A} (e : exn) : M A := fun w => (Raise e, w).
Definition lift {A} (o : outcome A) : M A := fun w => (o, w).

Definition bind {A B} (m : M A) (k : A -> M B) : M B :=
  fun w =>
    match m w with
    | (Ret a, w') => k a w'
    | (Raise e, w') => (Raise e, w')
    end.

(** The body of a [try]: its outcome is handed to the [except] clauses. *)
Definition attempt {A} (m : M A) : M (outcome A) :=
  fun w => let (r, w') := m w in (Ret r, w').

Definition print (d : diagnostic) : M unit := fun w => (Ret tt, put_line d w).

Declare Scope py_scope.
Delimit Scope py_scope with py.
Notation "x <- m ;; k" := (bind m (fun x => k))
  (at level 61, m at next level, right associativity) : py_scope.
Notation "m ;; k" := (bind m (fun _ => k))
  (at level 61, right associativity) : py_scope.

(** ** The pipeline *)

Section Pipeline.

Local Open Scope py_scope.

(** The language model behind [chain.invoke]: the text of the response
    ([response.content]) as a function of the number of calls made before
    and of the input. *)
Variable llm : nat -> chain_input -> string.

(** The order in which a [set] built by adding the given values, in that
    order, is iterated. *)
Variable set_iter : list value -> list value.

(** What the program relies on about sets: iteration yields members only,
    every text that was added is a member, and texts are not repeated. *)
Definition python_set : Prop :=
  (forall l x, In x (set_iter l) -> In x l)
  /\ (forall l s, In (VStr s) l -> In (VStr s) (set_iter l))
  /\ (forall l, Forall is_str l -> NoDup (set_iter l)).

Definition invoke (x : chain_input) : M string :=
  fun w => (Ret (llm (List.length (calls w)) x), record_call x w).

(** [[
def extract_metadata(post):
    ...
    response = chain.invoke(input={"post": post})
    try:
        return clean_json_response(response.content)
    except OutputParserException:
        print(f"Failed to parse response for post: {post[:100]}... \nResponse: {response.content}")
        raise
]] *)
Definition extract_metadata (post : value) : M value :=
  response <- invoke (ExtractionInput post) ;;
  match clean_json_response response with
  | Raise (OutputParserException msg) =>
      preview <- lift (prefix post 100) ;;
      print (FailedToParseResponse preview response) ;;
      raise (OutputParserException msg)
  | r => lift r
  end.

(** The loop of [get_unified_tags]: [unique_tags.update(post['tags'])] for
    each post. The set is kept as the list of the values added to it. *)
Fixpoint collect_tags (posts : list value) (unique_tags : list value)
  : outcome (list value) :=
  match posts with
  | [] => Ret unique_tags
  | post :: rest =>
      obind (getitem post "tags") (fun tags =>
      obind (iter tags) (fun items =>
      obind (traverse check_hashable items) (fun items =>
      collect_tags rest (unique_tags ++ items)%list)))
  end.

(** [[
def get_unified_tags(posts_with_metadata):
    unique_tags = set()
    for post in posts_with_metadata:
        unique_tags.update(post['tags'])
    if not unique_tags:
        raise OutputParserException("No tags found to unify.")
    unique_tags_list = ','.join(unique_tags)
    ...
    response = chain.invoke(input={"tags": str(unique_tags_list)})
    try:
        return clean_json_response(response.content)
    except OutputParserException:
        print(f"Failed to parse unified tags response. \nResponse: {response.content}")
        raise
]] *)
Definition get_unified_tags (posts_with_metadata : list value) : M value :=
  unique_tags <- lift (collect_tags posts_with_metadata []) ;;
  match unique_tags with
  | [] => raise (OutputParserException "No tags found to unify.")
  | _ :: _ =>
      names <- lift (traverse as_str (set_iter unique_tags)) ;;
      let unique_tags_list := join "," names in
      response <- invoke (UnificationInput unique_tags_list) ;;
      match clean_json_response response with
      | Raise (OutputParserException msg) =>
          print (FailedToParseUnifiedTags response) ;;
          raise (OutputParserException msg)
      | r => lift r
      end
  end.

(** The first loop of [process_posts]:
[[
    for post in posts:
        if 'caption' not in post:
            print(f"Skipping post as it does not contain the 'caption' key: {post}")
            continue
        try:
            metadata = extract_metadata(post['caption'])
            post_with_metadata = post | metadata
            enriched_posts.append(post_with_metadata)
        except OutputParserException as e:
            print(f"Error extracting metadata for post: {post['caption'][:100]}... \nError: {e}")
            continue
]] *)
Definition enrich_post (post : value) : M value :=
  caption <- lift (getitem post "caption") ;;
  metadata <- extract_metadata caption ;;
  lift (or_ post metadata).

Fixpoint enrich (posts : list value) (enriched_posts : list value)
  : M (list value) :=
  match posts with
  | [] => ret enriched_posts
  | post :: rest =>
      has_caption <- lift (contains post "caption") ;;
      if negb has_caption then
        print (SkippingPostWithoutCaption post) ;;
        enrich rest enriched_posts
      else
        r <- attempt (enrich_post post) ;;
        match r with
        | Ret post_with_metadata =>
            enrich rest (enriched_posts ++ [post_with_metadata])%list
        | Raise (OutputParserException msg) =>
            caption <- lift (getitem post "caption") ;;
            preview <- lift (prefix caption 100) ;;
            print (ErrorExtractingMetadata preview (OutputParserException msg)) ;;
            enrich rest enriched_posts
        | Raise e => raise e
        end
  end.

(** The new tags of one post:
    [{unified_tags.get(tag, tag) for tag in current_tags}], as a list. *)
Definition unify_tags (unified_tags : value) (current_tags : list value)
  : outcome (list value) :=
  obind (traverse (fun tag => obind (get_or_self unified_tags tag) check_hashable)
           current_tags)
        (fun new_tags => Ret (set_iter new_tags)).

(** The body of the second loop of [process_posts]:
[[
        current_tags = post['tags']
        new_tags = {unified_tags.get(tag, tag) for tag in current_tags}
        post['tags'] = list(new_tags)
]] *)
Definition rewrite_post (unified_tags : value) (post : value) : outcome value :=
  obind (getitem post "tags") (fun current_tags =>
  obind (iter current_tags) (fun items =>
  obind (unify_tags unified_tags items) (fun new_tags =>
  setitem post "tags" (VList new_tags)))).

(** [[
    with open(raw_file_path, encoding='utf-8') as file:
        posts = json.load(file)
]]
    A missing file and a file that is not a JSON text are the two
    failures the embedding has; a file written by [dump] is read back as
    the value that was dumped. *)
Definition load (path : string) : M value :=
  fun w =>
    match files w path with
    | None => (Raise (FileNotFoundError path), w)
    | Some (Text content) => (Json.loads content, w)
    | Some (Dump v) => (Ret v, w)
    | Some Truncated => (Raise JSONDecodeError, w)
    end.

(** [[
    with open(processed_file_path, encoding='utf-8', mode="w") as outfile:
        json.dump(enriched_posts, outfile, indent=4)
]]
    The path defaults to [None], which [open] rejects with a
    [TypeError]. [IOError] is [OSError]; it is raised when the file cannot
    be opened, and then nothing is written, or while it is written, and
    then the file is left cut short. *)
Definition dump (enriched_posts : list value) (path : option string) : M unit :=
  fun w =>
    match path with
    | None => (Raise TypeError, w)
    | Some p =>
        match faults w p with
        | Some OpenFails => (Raise OSError, w)
        | Some WriteFails => (Raise OSError, put_file p Truncated w)
        | None => (Ret tt, put_file p (Dump (VList enriched_posts)) w)
        end
    end.

(** What [process_posts] does once the first loop is over:
[[
    if not enriched_posts:
        print("No enriched posts available for processing.")
        return
    try:
        unified_tags = get_unified_tags(enriched_posts)
    except OutputParserException as e:
        print(f"Error unifying tags: {e}")
        return
    for post in enriched_posts:
        ...
    try:
        with open(processed_file_path, encoding='utf-8', mode="w") as outfile:
            json.dump(enriched_posts, outfile, indent=4)
    except IOError as e:
        print(f"Error writing processed posts file: {e}")
]] *)
Definition finish (enriched_posts : list value) (processed_file_path : option string)
  : M unit :=
  match enriched_posts with
  | [] => print NoEnrichedPosts
  | _ :: _ =>
      u <- attempt (get_unified_tags enriched_posts) ;;
      match u with
      | Raise (OutputParserException msg) =>
          print (ErrorUnifyingTags (OutputParserException msg))
      | Raise e => raise e
      | Ret unified_tags =>
          rewritten <- lift (traverse (rewrite_post unified_tags) enriched_posts) ;;
          d <- attempt (dump rewritten processed_file_path) ;;
          match d with
          | Raise OSError => print (ErrorWritingProcessedPosts OSError)
          | Raise e => raise e
          | Ret _ => ret tt
          end
      end
  end.

(** The two loops and the writing, on the posts that were loaded. *)
Definition run_batch (posts : list value) (processed_file_path : option string)
  : M unit :=
  enriched_posts <- enrich posts [] ;;
  finish enriched_posts processed_file_path.

(** [[
def process_posts(raw_file_path, processed_file_path=None):
    try:
        with open(raw_file_path, encoding='utf-8') as file:
            posts = json.load(file)
    except (FileNotFoundError, json.JSONDecodeError) as e:
        print(f"Error reading raw posts file: {e}")
        return
    enriched_posts = []
    for post in posts:
        ...
]] *)
Definition process_posts (raw_file_path : string)
  (processed_file_path : option string) : M unit :=
  l <- attempt (load raw_file_path) ;;
  match l with
  | Raise (FileNotFoundError p) => print (ErrorReadingRawPosts (FileNotFoundError p))
  | Raise JSONDecodeError => print (ErrorReadingRawPosts JSONDecodeError)
  | Raise e => raise e
  | Ret posts =>
      items <- lift (iter posts) ;;
      run_batch items processed_file_path
  end.

End Pipeline.

(** ** The vocabulary of the properties *)

(** The precedence the specification describes: on a shared key the
    merged post would keep the value the post had. *)
Definition post_fields_take_precedence : Prop :=
  forall (post metadata : dict) (k : string) (v v' : value),
    dict_get post k = Some v -> dict_get metadata k = Some v' ->
    dict_get (dict_or post metadata) k = Some v.

(** A TagMapping sends texts to texts. *)
Definition tag_mapping (m : dict) : Prop :=
  forall k v, dict_get m k = Some v -> is_str v.

(** [m.get(tag, tag)] as a total function on texts. *)
Definition translate (m : dict) (tag : value) : value :=
  match tag with
  | VStr s =>
      match dict_get m s with
      | Some v => v
      | None => tag
      end
  | _ => tag
  end.

(** The assumption of the specification: a canonical tag, that is a
    value of the mapping, is mapped to itself when it is looked up. *)
Definition canonical_tags_fixed (m : dict) : Prop :=
  forall k v, dict_get m k = Some v -> translate m v = v.

Definition is_extraction (x : chain_input) : Prop :=
  match x with
  | ExtractionInput _ => True
  | UnificationInput _ => False
  end.

(** From [w] to [w'] no file was written and the model was called for
    extraction only. *)
Definition extraction_only (w w' : world) : Prop :=
  files w' = files w
  /\ faults w' = faults w
  /\ exists cs, calls w' = (calls w ++ cs)%list /\ Forall is_extraction cs.

Definition quiet {A} (m : M A) : Prop :=
  forall w, extraction_only w (snd (m w)).

(** Posts that the first loop drops: without caption, or with a caption
    for which the response of the model never parses. *)
Definition dropped (llm : nat -> chain_input -> string) (post : value) : Prop :=
  exists d, post = VDict d
  /\ (dict_get d "caption" = None
      \/ exists caption, dict_get d "caption" = Some (VStr caption)
         /\ forall n, exists msg,
              clean_json_response (llm n (ExtractionInput (VStr caption)))
              = Raise (OutputParserException msg)).

(** A post that contributes no tag: it has a [tags] field and iterating
    it yields nothing. *)
Definition no_tags (post : value) : Prop :=
  exists tags, getitem post "tags" = Ret tags /\ iter tags = Ret [].

(** A post whose tags can be added to a set: it has a [tags] field, the
    field can be iterated and its items are hashable. A list of texts is
    the case the data model has. *)
Definition has_tags (post : value) : Prop :=
  exists tags items,
    getitem post "tags" = Ret tags /\ iter tags = Ret items
    /\ forallb hashable items = true.

(** The reading of C8 in the specification: a load error leaves
    [process_posts] as an exception. *)
Definition load_errors_propagate : Prop :=
  forall llm set_iter raw dst w e,
    load raw w = (Raise e, w) ->
    exists w', process_posts llm set_iter raw dst w = (Raise e, w').

(** ** Data to run the program on *)

(** [a == b] on hashable values; two floats are kept apart. *)
Definition same_member (a b : value) : bool :=
  match a, b with
  | VStr x, VStr y => String.eqb x y
  | VNone, VNone => true
  | VBool x, VBool y => Bool.eqb x y
  | VInt x, VInt y => x =? y
  | VBool x, VInt y => (if x then 1 else 0) =? y
  | VInt x, VBool y => x =? (if y then 1 else 0)
  | _, _ => false
  end.

(** The members in the order of their first insertion. *)
Fixpoint first_seen (l : list value) : list value :=
  match l with
  | [] => []
  | x :: r => x :: filter (fun y => negb (same_member x y)) (first_seen r)
  end.

(** A small batch of tags and a mapping to try the rewrite on. *)
Definition sample_mapping : dict :=
  [("Travel", VStr "Travel & Adventure"); ("Family", VStr "Family & Couples")].

(** A world without files, in which nothing was printed nor asked. *)
Definition empty_world : world :=
  World (fun _ => None) (fun _ => None) [] [].

(** The paths of the [__main__] block. *)
Definition raw_posts_path : string := "data/raw_posts.json".
Definition processed_posts_path : string := "data/processed_posts.json".

Definition caption_a : string := "Great trip with family!".
Definition caption_b : string := "Job search tips".

(** The source file: post A and post B. *)
Definition batch_text : string :=
  jq "[{'caption': 'Great trip with family!'}, {'caption': 'Job search tips'}]".

(** The responses of the model: the metadata of A, the metadata of B,
    and the mapping of the tags. *)
Definition response_a : string :=
  jq "{'line_count':1,'language':'English','tags':['Travel','Family']}".
Definition response_b : string :=
  jq "{'line_count':1,'language':'English','tags':['Job Search']}".
Definition response_u : string :=
  jq "{'Travel':'Travel & Adventure','Family':'Family & Couples'}".

(** The world before the run: the source file alone, every path
    writable. *)
Definition batch_world : world :=
  World (fun p => if String.eqb p raw_posts_path then Some (Text batch_text) else None)
        (fun _ => None) [] [].

(** The same world with a destination that cannot be opened. *)
Definition locked_world : world :=
  World (files batch_world)
        (fun p => if String.eqb p processed_posts_path then Some OpenFails else None)
        [] [].

Definition enriched_post (caption : string) (tags : list value) : value :=
  VDict [("caption", VStr caption); ("line_count", VInt 1);
         ("language", VStr "English"); ("tags", VList tags)].

Definition post_a : value := VDict [("caption", VStr caption_a)].
Definition post_b : value := VDict [("caption", VStr caption_b)].
Definition refusal : string := "Invalid JSON content:" ++ nl ++ "Sorry, no tags}".

(** A model that answers as in the scenario. *)
Definition scenario_llm (n : nat) (x : chain_input) : string :=
  match n with
  | 0%nat => response_a
  | 1%nat => response_b
  | _ => response_u
  end.

(** A model that answers the first call as in the scenario and then
    refuses. *)
Definition flaky_llm (n : nat) (x : chain_input) : string :=
  match n with
  | 0%nat => response_a
  | _ => "Sorry, no tags}"
  end.

(** A model that says nothing. *)
Definition silent_llm (n : nat) (x : chain_input) : string := "".

(** A model that never returns an object. *)
Definition refusing_llm (n : nat) (x : chain_input) : string := "Sorry, no tags}".

(** A model that returns metadata without any tag. *)
Definition tagless_llm (n : nat) (x : chain_input) : string :=
  jq "{'line_count':1,'language':'English','tags':[]}".

(** A model that answers the first call as in the scenario and then
    returns an empty object. *)
Definition careless_llm (n : nat) (x : chain_input) : string :=
  match n with
  | 0%nat => response_a
  | _ => "{}"
  end.

(** ** The vocabulary of the further properties *)

(** [enriched_from posts out]: [out] is made, in order, of some of the
    posts that have a caption, each merged with a metadata object. *)
Inductive enriched_from : list value -> list value -> Prop :=
| enriched_nil : enriched_from [] []
| enriched_drop (post : value) (posts out : list value) :
    enriched_from posts out -> enriched_from (post :: posts) out
| enriched_keep (d metadata : dict) (posts out : list value) :
    dict_get d "caption" <> None ->
    NoDup (keys metadata) ->
    enriched_from posts out ->
    enriched_from (VDict d :: posts) (VDict (dict_or d metadata) :: out).

(** The captions of the posts that are objects with a caption. *)
Definition captions (posts : list value) : list value :=
  flat_map (fun post =>
              match post with
              | VDict d =>
                  match dict_get d "caption" with
                  | Some c => [c]
                  | None => []
                  end
              | _ => []
              end) posts.

Definition is_skip (d : diagnostic) : bool :=
  match d with
  | SkippingPostWithoutCaption _ => true
  | _ => false
  end.

Definition is_extraction_error (d : diagnostic) : bool :=
  match d with
  | ErrorExtractingMetadata _ _ => true
  | _ => false
  end.

(** A post that is an object without caption. *)
Definition lacks_caption (post : value) : Prop :=
  exists d, post = VDict d /\ dict_get d "caption" = None.

(** A post that is an object whose tags are a list of texts. *)
Definition text_tags (post : value) : Prop :=
  exists d tags,
    post = VDict d /\ dict_get d "tags" = Some (VList tags) /\ Forall is_str tags.

(** The tags of a post when they are a list, and those of a batch. *)
Definition tags_of (post : value) : list value :=
  match post with
  | VDict d =>
      match dict_get d "tags" with
      | Some (VList tags) => tags
      | _ => []
      end
  | _ => []
  end.

Definition all_tags (posts : list value) : list value := flat_map tags_of posts.

(** [rewritten_with m post post']: [post'] is [post] with its tags
    replaced by their images under the mapping [m], each once. *)
Definition rewritten_with (m : dict) (post post' : value) : Prop :=
  exists d tags new_tags,
    post = VDict d
    /\ dict_get d "tags" = Some (VList tags)
    /\ post' = VDict (dict_set d "tags" (VList new_tags))
    /\ NoDup new_tags
    /\ forall x, In x new_tags <-> exists t, In t tags /\ x = translate m t.

(** A model that extracts metadata but cannot unify. *)
Definition stubborn_llm (n : nat) (x : chain_input) : string :=
  match x with
  | ExtractionInput _ => response_b
  | UnificationInput _ => "Sorry, no tags}"
  end.

(** A world whose source file holds a number. *)
Definition scalar_world : world :=
  World (fun p => if String.eqb p raw_posts_path then Some (Text "42") else None)
        (fun _ => None) [] [].

(** * Properties *)

(** ** The scanner on examples *)

Example loads_metadata :
  Json.loads (jq "{'line_count':1,'language':'English','tags':['Travel','Family']}")
  = Ret (VDict [("line_count", VInt 1); ("language", VStr "English");
                ("tags", VList [VStr "Travel"; VStr "Family"])]).
Proof. vm_compute. reflexivity. Qed.

Example clean_with_commentary :
  clean_json_response
    ("Here you go:" ++ nl ++
     jq "{'line_count':2,'language':'Hinglish','tags':['Motivation']}" ++ nl ++ "Thanks!")
  = Ret (VDict [("line_count", VInt 2); ("language", VStr "Hinglish");
                ("tags", VList [VStr "Motivation"])]).
Proof. vm_compute. reflexivity. Qed.

Example loads_values :
  Json.loads (jq " [1, -2.5e3, true, null, {'a': {}, 'b':[ ], 'a': 'x\n'}] ")
  = Ret (VList [VInt 1; VFloat "-2.5e3"; VBool true; VNone;
                VDict [("a", VStr ("x" ++ nl)); ("b", VList [])]])
  /\ Json.loads "[NaN, -Infinity, -0, 1e5]"
     = Ret (VList [VFloat "NaN"; VFloat "-Infinity"; VInt 0; VFloat "1e5"])
  /\ Json.loads (jq "'\u00e9\/'") = Ret (VStr (String (ascii_of_nat 233) "/")).
Proof. vm_compute. repeat split; reflexivity. Qed.

Example loads_errors :
  Json.loads "" = Raise JSONDecodeError
  /\ Json.loads "}" = Raise JSONDecodeError
  /\ Json.loads "01" = Raise JSONDecodeError
  /\ Json.loads "1." = Raise JSONDecodeError
  /\ Json.loads "[1,]" = Raise JSONDecodeError
  /\ Json.loads (jq "{'a':1,}") = Raise JSONDecodeError
  /\ Json.loads (jq "{'a':1} {'b':2}") = Raise JSONDecodeError
  /\ Json.loads "nul" = Raise JSONDecodeError
  /\ Json.loads (jq "'\u20ac'") = Raise Unrepresentable.
Proof. vm_compute. repeat split; reflexivity. Qed.

Example contains_caption :
  contains (VDict [("caption", VStr "x")]) "caption" = Ret true
  /\ contains (VDict [("text", VStr "x")]) "caption" = Ret false
  /\ contains (VStr "my caption") "caption" = Ret true
  /\ contains (VStr "capt") "caption" = Ret false
  /\ contains (VList [VStr "caption"]) "caption" = Ret true
  /\ contains (VInt 5) "caption" = Raise TypeError.
Proof. vm_compute. repeat split; reflexivity. Qed.

(** ** The fuel of the scanner is enough *)

(** Case analysis on the innermost [match] of a hypothesis. *)
Ltac break_hyp H :=
  match type of H with
  | context [match ?x with _ => _ end] =>
      lazymatch x with
      | context [match _ with _ => _ end] => fail
      | _ => destruct x eqn:?
      end
  end.

Section ScannerFuel.

Import Json.

Lemma skip_ws_le (l : list ascii) : (List.length (skip_ws l) <= List.length l)%nat.
Proof.
  induction l as [|c r IH]; simpl; [lia|]. destruct (is_ws c); simpl; lia.
Qed.

Lemma skip_ws_cons_lt (l r : list ascii) (c : ascii) :
  skip_ws l = c :: r -> (List.length r < List.length l)%nat.
Proof. intro H. pose proof (skip_ws_le l) as Hle. rewrite H in Hle. simpl in Hle. lia. Qed.

Lemma scan_string_lt (l : list ascii) :
  forall s r, scan_string l = Parsed s r -> (List.length r < List.length l)%nat.
Proof.
  remember (List.length l) as n eqn:Hn. revert l Hn.
  induction n as [n IH] using lt_wf_ind. intros l Hn s r H. subst n.
  destruct l as [|c l]; [discriminate|]. cbn [scan_string] in H.
  assert (Hrec : forall l' s' r', (List.length l' <= List.length l)%nat ->
                   scan_string l' = Parsed s' r' ->
                   (List.length r' < List.length l')%nat).
  { intros l' s' r' Hle H'. eapply (IH (List.length l')); [simpl; lia | reflexivity | exact H']. }
  unfold pbind in H. simpl List.length.
  repeat (break_hyp H; try discriminate);
    try (injection H as <- <-; lia);
    repeat match goal with
      | E : scan_string ?l' = Parsed _ _ |- _ =>
          apply Hrec in E; [|simpl; lia]
      end;
    injection H as <- <-; simpl in *; lia.
Qed.

Lemma span_digits_le (l ds r : list ascii) :
  span_digits l = (ds, r) -> (List.length r <= List.length l)%nat.
Proof.
  revert ds r. induction l as [|c l IH]; intros ds r H; simpl in H.
  - injection H as <- <-. simpl; lia.
  - destruct (is_digit c).
    + destruct (span_digits l) as [ds' r'] eqn:E. injection H as <- <-.
      specialize (IH _ _ eq_refl). simpl; lia.
    + injection H as <- <-. simpl; lia.
Qed.

Lemma scan_frac_le (l fr r : list ascii) :
  scan_frac l = (fr, r) -> (List.length r <= List.length l)%nat.
Proof.
  unfold scan_frac. intro H.
  repeat (break_hyp H; try discriminate);
    repeat match goal with
      | E : span_digits _ = _ |- _ => apply span_digits_le in E
      end;
    injection H as <- <-; simpl in *; lia.
Qed.

Lemma scan_exp_le (l ex r : list ascii) :
  scan_exp l = (ex, r) -> (List.length r <= List.length l)%nat.
Proof.
  unfold scan_exp. intro H.
  destruct l as [|e l0]; [injection H as <- <-; lia|].
  destruct (Ascii.eqb e "e" || Ascii.eqb e "E"); [|injection H as <- <-; lia].
  destruct (match l0 with
            | [] => ([], l0)
            | s :: r0 =>
                if Ascii.eqb s "-" || Ascii.eqb s "+" then ([s], r0) else ([], l0)
            end) as [sign r'] eqn:Es.
  assert (Hs : (List.length r' <= List.length l0)%nat).
  { destruct l0 as [|s r0]; [injection Es as <- <-; lia|].
    destruct (Ascii.eqb s "-" || Ascii.eqb s "+"); injection Es as <- <-; simpl; lia. }
  destruct (span_digits r') as [ds rest] eqn:Ed. apply span_digits_le in Ed.
  destruct ds; injection H as <- <-; simpl; lia.
Qed.

Lemma scan_int_part_lt (l ds r : list ascii) :
  scan_int_part l = Some (ds, r) -> (List.length r < List.length l)%nat.
Proof.
  unfold scan_int_part. intro H.
  repeat (break_hyp H; try discriminate);
    repeat match goal with
      | E : span_digits _ = _ |- _ => apply span_digits_le in E
      end;
    injection H as <- <-; simpl in *; lia.
Qed.

Lemma scan_number_lt (l r : list ascii) (v : value) :
  scan_number l = Some (v, r) -> (List.length r < List.length l)%nat.
Proof.
  unfold scan_number. intro H.
  destruct (match l with
            | [] => (false, l)
            | c :: r0 => if Ascii.eqb c "-" then (true, r0) else (false, l)
            end) as [neg l'] eqn:El.
  assert (Hl : (List.length l' <= List.length l)%nat).
  { destruct l as [|c r0]; [injection El as <- <-; lia|].
    destruct (Ascii.eqb c "-"); injection El as <- <-; simpl; lia. }
  destruct (scan_int_part l') as [[ds r1]|] eqn:Ei; [|discriminate].
  apply scan_int_part_lt in Ei.
  destruct (scan_frac r1) as [fr r2] eqn:Ef. apply scan_frac_le in Ef.
  destruct (scan_exp r2) as [ex r3] eqn:Ee. apply scan_exp_le in Ee.
  destruct fr, ex; injection H as <- <-; lia.
Qed.

Lemma strip_prefix_length (p l r : list ascii) :
  strip_prefix p l = Some r -> List.length l = (List.length p + List.length r)%nat.
Proof.
  revert l. induction p as [|a p IH]; intros l H; simpl in H.
  - injection H as <-. reflexivity.
  - destruct l as [|b l]; [discriminate|]. destruct (Ascii.eqb a b); [|discriminate].
    simpl. rewrite (IH _ H). reflexivity.
Qed.

Lemma scan_literal_lt (l r : list ascii) (v : value) :
  scan_literal l = Some (v, r) -> (List.length r < List.length l)%nat.
Proof.
  unfold scan_literal. intro H.
  repeat (break_hyp H; try discriminate);
    repeat match goal with
      | E : strip_prefix _ _ = Some _ |- _ => apply strip_prefix_length in E; simpl in E
      | E : scan_number _ = Some ?p, H' : Some ?p = Some _ |- _ =>
          injection H' as ->; apply scan_number_lt in E
      end;
    try (injection H as <- <-); lia.
Qed.

Lemma scan_string_fuel (l : list ascii) : scan_string l <> OutOfFuel.
Proof.
  remember (List.length l) as n eqn:Hn. revert l Hn.
  induction n as [n IH] using lt_wf_ind. intros l Hn H. subst n.
  destruct l as [|c l]; [discriminate|]. cbn [scan_string] in H.
  assert (Hrec : forall l', (List.length l' <= List.length l)%nat ->
                   scan_string l' <> OutOfFuel).
  { intros l' Hle. eapply (IH (List.length l')); [simpl; lia | reflexivity]. }
  unfold pbind in H.
  repeat (break_hyp H; try discriminate);
    match goal with
    | E : scan_string ?l' = OutOfFuel |- _ => apply (Hrec l'); [simpl; lia | exact E]
    end.
Qed.

Ltac lengths :=
  repeat match goal with
    | E : scan_string _ = Parsed _ _ |- _ => apply scan_string_lt in E
    | E : skip_ws _ = _ :: _ |- _ => apply skip_ws_cons_lt in E
    | E : scan_literal _ = Some _ |- _ => apply scan_literal_lt in E
    end;
  repeat match goal with
    | |- context [skip_ws ?l] =>
        lazymatch goal with
        | _ : (List.length (skip_ws l) <= List.length l)%nat |- _ => fail
        | _ => pose proof (skip_ws_le l)
        end
    | _ : context [skip_ws ?l] |- _ =>
        lazymatch goal with
        | _ : (List.length (skip_ws l) <= List.length l)%nat |- _ => fail
        | _ => pose proof (skip_ws_le l)
        end
    end.

(** Every scanning function consumes input when it succeeds. *)
Lemma scan_progress (n : nat) :
  (forall l v r, scan_once n l = Parsed v r -> (List.length r < List.length l)%nat)
  /\ (forall acc l vs r,
        scan_items n acc l = Parsed vs r -> (List.length r < List.length l)%nat)
  /\ (forall acc l d r,
        scan_members n acc l = Parsed d r -> (List.length r < List.length l)%nat).
Proof.
  induction n as [|n (IH1 & IH2 & IH3)]; [repeat split; discriminate|].
  split; [|split].
  - intros l v r H. cbn [scan_once] in H. unfold pbind in H.
    repeat (break_hyp H; try discriminate);
      repeat match goal with
        | E : scan_items n _ _ = Parsed _ _ |- _ => apply IH2 in E
        | E : scan_members n _ _ = Parsed _ _ |- _ => apply IH3 in E
        end;
      lengths; try (injection H as <- <-); subst; simpl in *; lia.
  - intros acc l vs r H. cbn [scan_items] in H. unfold pbind in H.
    repeat (break_hyp H; try discriminate);
      repeat match goal with
        | E : scan_once n _ = Parsed _ _ |- _ => apply IH1 in E
        end;
      try (apply IH2 in H); lengths; try (injection H as <- <-);
      subst; simpl in *; lia.
  - intros acc l d r H. cbn [scan_members] in H. unfold pbind in H.
    repeat (break_hyp H; try discriminate);
      repeat match goal with
        | E : scan_once n _ = Parsed _ _ |- _ => apply IH1 in E
        end;
      try (apply IH3 in H); lengths; try (injection H as <- <-);
      subst; simpl in *; lia.
Qed.

(** With more fuel than twice the length of the input, the scanner does
    not run out of it. *)
Lemma scan_fuel (n : nat) :
  (forall l, (2 * List.length l < n)%nat -> scan_once n l <> OutOfFuel)
  /\ (forall acc l, (2 * List.length l + 1 < n)%nat -> scan_items n acc l <> OutOfFuel)
  /\ (forall acc l, (2 * List.length l + 1 < n)%nat -> scan_members n acc l <> OutOfFuel).
Proof.
  induction n as [|n (IH1 & IH2 & IH3)]; [repeat split; intros; lia|].
  destruct (scan_progress n) as (P1 & P2 & P3).
  split; [|split].
  - intros l Hl H. cbn [scan_once] in H. unfold pbind in H.
    repeat (break_hyp H; try discriminate);
      match goal with
      | E : scan_string _ = OutOfFuel |- _ => exact (scan_string_fuel _ E)
      | E : scan_items n ?a ?l' = OutOfFuel |- _ =>
          apply (IH2 a l'); [|exact E]
      | E : scan_members n ?a ?l' = OutOfFuel |- _ =>
          apply (IH3 a l'); [|exact E]
      end;
      lengths; subst; simpl in *; lia.
  - intros acc l Hl H. cbn [scan_items] in H. unfold pbind in H.
    repeat (break_hyp H; try discriminate);
      repeat match goal with
        | E : scan_once n _ = Parsed _ _ |- _ => apply P1 in E
        end;
      match goal with
      | E : scan_once n ?l' = OutOfFuel |- _ => apply (IH1 l'); [|exact E]
      | E : scan_items n ?a ?l' = OutOfFuel |- _ => apply (IH2 a l'); [|exact E]
      end;
      lengths; subst; simpl in *; lia.
  - intros acc l Hl H. cbn [scan_members] in H. unfold pbind in H.
    repeat (break_hyp H; try discriminate);
      repeat match goal with
        | E : scan_once n _ = Parsed _ _ |- _ => apply P1 in E
        end;
      match goal with
      | E : scan_string _ = OutOfFuel |- _ => exact (scan_string_fuel _ E)
      | E : scan_once n ?l' = OutOfFuel |- _ => apply (IH1 l'); [|exact E]
      | E : scan_members n ?a ?l' = OutOfFuel |- _ => apply (IH3 a l'); [|exact E]
      end;
      lengths; subst; simpl in *; lia.
Qed.

(** [json.loads] never stops for lack of fuel. *)
Lemma loads_fuel (s : string) : loads s <> Raise RecursionError.
Proof.
  unfold loads. intro H.
  destruct (scan_once (S (2 * List.length (chars s))) (skip_ws (chars s))) eqn:E;
    try discriminate.
  - destruct (skip_ws rest); discriminate.
  - apply (proj1 (scan_fuel _)) in E; [exact E|].
    pose proof (skip_ws_le (chars s)). lia.
Qed.

End ScannerFuel.

(** ** Properties of [clean_json_response] *)

Section ResponseParser.

Lemma find_from_absent (c : ascii) (l : list ascii) (i : Z) :
  ~ In c l -> find_from c l i = -1.
Proof.
  revert i; induction l as [|x r IH]; intros i Hc; simpl; [reflexivity|].
  destruct (Ascii.eqb_spec x c) as [->|_].
  - exfalso; apply Hc; left; reflexivity.
  - apply IH; intro Hr; apply Hc; right; exact Hr.
Qed.

Lemma rfind_from_app (c : ascii) (l1 l2 : list ascii) (i best : Z) :
  rfind_from c (l1 ++ l2)%list i best
  = rfind_from c l2 (i + Z.of_nat (List.length l1)) (rfind_from c l1 i best).
Proof.
  revert i best; induction l1 as [|x r IH]; intros i best; simpl List.length.
  - simpl; f_equal; lia.
  - cbn [app rfind_from]; rewrite IH; f_equal; lia.
Qed.

Lemma rfind_from_range (c : ascii) (l : list ascii) (i best : Z) :
  best < i ->
  best <= rfind_from c l i best < i + Z.of_nat (List.length l).
Proof.
  revert i best; induction l as [|x r IH]; intros i best Hb; simpl List.length.
  - simpl; lia.
  - cbn [rfind_from]; destruct (Ascii.eqb x c).
    + pose proof (IH (i + 1) i ltac:(lia)); lia.
    + pose proof (IH (i + 1) best ltac:(lia)); lia.
Qed.

(** With [start = -1], the slice taken by [clean_json_response] is empty
    or is the single closing brace that ends the text. *)
Lemma slice_from_minus_one (l : list ascii) :
  let stop := rfind_from "}" l 0 (-1) + 1 in
  slice_list l (-1) stop = [] \/ slice_list l (-1) stop = ["}"%char].
Proof.
  destruct l as [|x0 r0] using rev_ind; [left; reflexivity|]. clear IHr0.
  cbv zeta. rewrite rfind_from_app. cbn [rfind_from]. unfold slice_list.
  rewrite length_app, Nat2Z.inj_add. simpl List.length.
  set (n := Z.of_nat (List.length r0)). assert (Hn : 0 <= n) by (unfold n; lia).
  pose proof (rfind_from_range "}" r0 0 (-1) ltac:(lia)) as Hr. fold n in Hr.
  assert (Ha : clamp (n + Z.of_nat 1) (-1) = n)
    by (unfold clamp; change (-1 <? 0) with true; cbv iota; lia).
  rewrite Ha. destruct (Ascii.eqb_spec x0 "}") as [->|_].
  - right. replace (0 + n + 1) with (n + 1) by lia.
    assert (Hb : clamp (n + Z.of_nat 1) (n + 1) = n + 1).
    { unfold clamp. destruct (n + 1 <? 0) eqn:E; [apply Z.ltb_lt in E; lia|]. lia. }
    rewrite Hb. replace (n + 1 - n) with 1 by lia. unfold n. rewrite Nat2Z.id.
    rewrite skipn_app, skipn_all, Nat.sub_diag. reflexivity.
  - left. set (s := rfind_from "}" r0 0 (-1) + 1) in *.
    assert (Hb : clamp (n + Z.of_nat 1) s <= n).
    { unfold clamp. destruct (s <? 0) eqn:E; [apply Z.ltb_lt in E|]; lia. }
    replace (Z.to_nat (clamp (n + Z.of_nat 1) s - n)) with 0%nat by lia.
    reflexivity.
Qed.

(** C6. A response without an opening brace never parses:
    [clean_json_response] raises [OutputParserException] and the message
    is "Invalid JSON content:", a line break and the whole raw response.
    [find] returns -1, so the slice starts at the last character; it is
    empty or a lone closing brace, and neither is a JSON text. *)
Theorem clean_json_response_without_brace (response : string) :
  ~ In "{"%char (chars response) ->
  clean_json_response response
  = Raise (OutputParserException ("Invalid JSON content:" ++ nl ++ response)).
Proof.
  intro Hno. unfold clean_json_response, find, rfind, slice.
  rewrite (find_from_absent _ _ _ Hno).
  destruct (slice_from_minus_one (chars response)) as [E|E];
    cbv zeta in E; rewrite E; reflexivity.
Qed.

Lemma clean_json_response_without_brace_witness :
  ~ In "{"%char (chars "Sorry, no tags}")
  /\ clean_json_response "Sorry, no tags}"
     = Raise (OutputParserException ("Invalid JSON content:" ++ nl ++ "Sorry, no tags}")).
Proof.
  assert (H : ~ In "{"%char (chars "Sorry, no tags}"))
    by (simpl; intuition discriminate).
  split; [exact H | exact (clean_json_response_without_brace _ H)].
Defined.

End ResponseParser.

(** ** What [clean_json_response] returns *)

Section ParsedObjects.

Import Json.

Lemma keys_dict_set (d : dict) (k x : string) (v : value) :
  In x (keys (dict_set d k v)) -> x = k \/ In x (keys d).
Proof.
  induction d as [|[k' v'] r IH]; simpl.
  - intros [<-|[]]; left; reflexivity.
  - destruct (String.eqb k' k); simpl; [tauto|].
    intros [<-|H]; [right; left; reflexivity|]. destruct (IH H); tauto.
Qed.

Lemma dict_set_unique_keys (d : dict) (k : string) (v : value) :
  NoDup (keys d) -> NoDup (keys (dict_set d k v)).
Proof.
  induction d as [|[k' v'] r IH]; simpl; intro H.
  - repeat constructor. intros [].
  - inversion H as [|? ? Hnotin Hr]; subst.
    destruct (String.eqb_spec k' k) as [->|Hne]; simpl.
    + constructor; assumption.
    + constructor; [|apply IH; exact Hr].
      intro Hin. apply keys_dict_set in Hin. destruct Hin as [->|Hin]; auto.
Qed.

Lemma scan_members_unique_keys (n : nat) :
  forall acc l d r,
    NoDup (keys acc) -> scan_members n acc l = Parsed d r -> NoDup (keys d).
Proof.
  induction n as [|n IH]; intros acc l d r Hacc H; [discriminate|].
  cbn [scan_members] in H. unfold pbind in H.
  repeat (break_hyp H; try discriminate).
  - injection H as <- <-. apply dict_set_unique_keys; exact Hacc.
  - eapply IH; [|exact H]. apply dict_set_unique_keys; exact Hacc.
Qed.

Lemma scan_literal_atom (l r : list ascii) (entries : dict) :
  scan_literal l <> Some (VDict entries, r).
Proof.
  unfold scan_literal, scan_number. intro H.
  repeat (break_hyp H; try discriminate).
Qed.

(** A text that starts with an opening brace is read as an object, whose
    keys are distinct, or not at all. *)
Lemma scan_once_object (n : nat) (l r : list ascii) (v : value) :
  scan_once n ("{"%char :: l) = Parsed v r ->
  exists d, v = VDict d /\ NoDup (keys d).
Proof.
  destruct n as [|n]; [discriminate|]. cbn [scan_once].
  change (Ascii.eqb "{" dquote) with false. change (Ascii.eqb "{" "{") with true.
  cbv iota. unfold pbind. intro H.
  repeat (break_hyp H; try discriminate).
  - injection H as <- <-. exists []. split; [reflexivity | constructor].
  - injection H as <- <-. eexists. split; [reflexivity|].
    eapply scan_members_unique_keys; [|eassumption]. constructor.
Qed.

Lemma find_from_bounds (c : ascii) (l : list ascii) (i : Z) :
  find_from c l i = -1
  \/ (i <= find_from c l i < i + Z.of_nat (List.length l)
      /\ exists r, skipn (Z.to_nat (find_from c l i - i)) l = c :: r).
Proof.
  revert i. induction l as [|x l IH]; intro i; [left; reflexivity|].
  cbn [find_from]. destruct (Ascii.eqb_spec x c) as [->|_].
  - right. split; [simpl List.length; lia|].
    rewrite Z.sub_diag. exists l. reflexivity.
  - destruct (IH (i + 1)) as [E | (Hb & r & Hr)]; [left; exact E|].
    right. split; [simpl List.length; lia|]. exists r.
    replace (Z.to_nat (find_from c l (i + 1) - i))
      with (S (Z.to_nat (find_from c l (i + 1) - (i + 1)))) by lia.
    exact Hr.
Qed.

Lemma chars_text (l : list ascii) : chars (text l) = l.
Proof. apply list_ascii_of_string_of_list_ascii. Qed.

(** [clean_json_response] returns objects only, with distinct keys. *)
Lemma clean_json_response_object (response : string) (v : value) :
  clean_json_response response = Ret v ->
  exists d, v = VDict d /\ NoDup (keys d).
Proof.
  unfold clean_json_response, find, slice. intro H.
  set (l := chars response) in *.
  set (stop := rfind response "}" + 1) in *.
  destruct (find_from_bounds "{" l 0) as [E | (Hb & r & Hr)].
  - exfalso. rewrite E in H.
    assert (Hno : clean_json_response response
                  = Raise (OutputParserException ("Invalid JSON content:" ++ nl ++ response))).
    { unfold clean_json_response, find, slice. fold l. rewrite E.
      destruct (slice_from_minus_one l) as [E'|E']; cbv zeta in E';
        unfold rfind; fold l; rewrite E'; reflexivity. }
    unfold clean_json_response, find, slice in Hno. fold l in Hno.
    rewrite E in Hno. fold stop in Hno. rewrite Hno in H. discriminate.
  - set (start := find_from "{" l 0) in *.
    assert (Hs : slice_list l start stop = []
                 \/ exists r', slice_list l start stop = "{"%char :: r').
    { unfold slice_list.
      assert (Ha : clamp (Z.of_nat (List.length l)) start = start).
      { unfold clamp. destruct (start <? 0) eqn:El; [apply Z.ltb_lt in El; lia|lia]. }
      rewrite Ha. rewrite Z.sub_0_r in Hr. rewrite Hr.
      destruct (Z.to_nat (clamp (Z.of_nat (List.length l)) stop - start));
        [left; reflexivity | right; eexists; reflexivity]. }
    destruct Hs as [Hs | [r' Hs]]; rewrite Hs in H.
    + discriminate.
    + unfold loads in H. rewrite chars_text in H.
      cbn [skip_ws is_ws] in H. change (is_ws "{") with false in H. cbv iota in H.
      destruct (scan_once _ _) as [v' rest| | |] eqn:Es; try discriminate.
      * apply scan_once_object in Es. destruct (skip_ws rest); [|discriminate].
        injection H as <-. exact Es.
Qed.

End ParsedObjects.

(** ** Dictionaries: lookup after update *)

Section Dictionaries.

Lemma dict_get_set_same (d : dict) (k : string) (v : value) :
  dict_get (dict_set d k v) k = Some v.
Proof.
  induction d as [|[k' v'] r IH]; simpl.
  - rewrite String.eqb_refl; reflexivity.
  - destruct (String.eqb k' k) eqn:E; simpl; rewrite E; [reflexivity | exact IH].
Qed.

Lemma dict_get_set_other (d : dict) (k k' : string) (v : value) :
  k <> k' -> dict_get (dict_set d k v) k' = dict_get d k'.
Proof.
  intro Hk. induction d as [|[k0 v0] r IH]; simpl.
  - destruct (String.eqb_spec k k'); [contradiction | reflexivity].
  - destruct (String.eqb_spec k0 k) as [->|Hne]; simpl.
    + destruct (String.eqb_spec k k'); [contradiction | reflexivity].
    + rewrite IH; reflexivity.
Qed.

Lemma dict_get_none_keys (d : dict) (k : string) :
  ~ In k (keys d) -> dict_get d k = None.
Proof.
  induction d as [|[k0 v0] r IH]; simpl; intro H; [reflexivity|].
  destruct (String.eqb_spec k0 k) as [->|_]; [exfalso; auto | apply IH; auto].
Qed.

Lemma dict_get_update_absent (pairs d : dict) (k : string) :
  dict_get pairs k = None -> dict_get (dict_update d pairs) k = dict_get d k.
Proof.
  unfold dict_update. revert d.
  induction pairs as [|[k0 v0] r IH]; intros d H; simpl in *; [reflexivity|].
  destruct (String.eqb_spec k0 k) as [->|Hne]; [discriminate|].
  rewrite (IH _ H). apply dict_get_set_other; exact Hne.
Qed.

Lemma dict_get_update_present (pairs d : dict) (k : string) (v : value) :
  NoDup (keys pairs) -> dict_get pairs k = Some v ->
  dict_get (dict_update d pairs) k = Some v.
Proof.
  unfold dict_update. revert d.
  induction pairs as [|[k0 v0] r IH]; intros d Hnd H; simpl in *; [discriminate|].
  inversion Hnd as [|? ? Hnotin Hnd']; subst.
  destruct (String.eqb_spec k0 k) as [->|Hne].
  - injection H as ->.
    change (dict_get (dict_update (dict_set d k v) r) k = Some v).
    rewrite dict_get_update_absent by (apply dict_get_none_keys; exact Hnotin).
    apply dict_get_set_same.
  - apply IH; assumption.
Qed.

End Dictionaries.

(** ** Merging the metadata into a post *)

Section Merge.

(** C9, as stated, fails: a post that already has tags gets the tags of
    the metadata. *)
Lemma post_fields_do_not_take_precedence : ~ post_fields_take_precedence.
Proof.
  intro H.
  specialize (H [("caption", VStr "Sunset"); ("tags", VList [VStr "Mine"])]
                [("tags", VList [VStr "Travel"])]
                "tags" (VList [VStr "Mine"]) (VList [VStr "Travel"])
                eq_refl eq_refl).
  vm_compute in H. discriminate H.
Qed.

(** C9, amended. In [post | metadata] the metadata wins on every key it
    has, and the post keeps its value on the other keys. *)
Theorem merge_prefers_metadata (post metadata : dict) (k : string) :
  NoDup (keys metadata) ->
  dict_get (dict_or post metadata) k
  = match dict_get metadata k with
    | Some v => Some v
    | None => dict_get post k
    end.
Proof.
  intro Hnd. unfold dict_or. destruct (dict_get metadata k) as [v|] eqn:E.
  - apply dict_get_update_present; assumption.
  - apply dict_get_update_absent; assumption.
Qed.

Lemma merge_prefers_metadata_witness :
  NoDup (keys [("language", VStr "English"); ("tags", VList [VStr "Travel"])])
  /\ dict_get (dict_or [("caption", VStr "Sunset"); ("tags", VList [VStr "Mine"])]
                       [("language", VStr "English"); ("tags", VList [VStr "Travel"])])
              "tags"
     = Some (VList [VStr "Travel"]).
Proof.
  assert (H : NoDup (keys [("language", VStr "English"); ("tags", VList [VStr "Travel"])]))
    by (repeat constructor; simpl; intuition discriminate).
  split; [exact H|].
  exact (merge_prefers_metadata
           [("caption", VStr "Sunset"); ("tags", VList [VStr "Mine"])] _ "tags" H).
Defined.

(** In the pipeline the metadata is what [clean_json_response] returned:
    an object with distinct keys, so the merge succeeds on a post that
    is an object and the metadata wins on its keys. *)
Lemma metadata_of_response_wins (response : string) (v : value) (post : dict)
  (k : string) :
  clean_json_response response = Ret v ->
  exists metadata,
    v = VDict metadata
    /\ or_ (VDict post) v = Ret (VDict (dict_or post metadata))
    /\ dict_get (dict_or post metadata) k
       = match dict_get metadata k with
         | Some x => Some x
         | None => dict_get post k
         end.
Proof.
  intro H. destruct (clean_json_response_object _ _ H) as (metadata & -> & Hnd).
  exists metadata. split; [reflexivity|]. split; [reflexivity|].
  unfold dict_or. destruct (dict_get metadata k) as [x|] eqn:E.
  - apply dict_get_update_present; assumption.
  - apply dict_get_update_absent; assumption.
Qed.

End Merge.

(** ** Rewriting the tags of a post *)

Section TagRewrite.

Variable set_iter : list value -> list value.
Hypothesis set_model : python_set set_iter.

Lemma translate_is_str (m : dict) (tag : value) :
  tag_mapping m -> is_str tag -> is_str (translate m tag).
Proof.
  intros Hm [s ->]; simpl. destruct (dict_get m s) as [v|] eqn:E.
  - exact (Hm _ _ E).
  - exists s; reflexivity.
Qed.

Lemma is_str_hashable (v : value) : is_str v -> hashable v = true.
Proof. intros [s ->]; reflexivity. Qed.

Lemma traverse_translate (m : dict) (tags : list value) :
  tag_mapping m -> Forall is_str tags ->
  traverse (fun tag => obind (get_or_self (VDict m) tag) check_hashable) tags
  = Ret (map (translate m) tags).
Proof.
  intros Hm Htags. induction Htags as [|tag r Htag _ IH]; [reflexivity|].
  cbn [traverse map]. rewrite IH.
  pose proof (translate_is_str m tag Hm Htag) as Hs.
  destruct Htag as [s ->]. unfold get_or_self. simpl translate in *.
  destruct (dict_get m s) as [v|]; cbn [obind].
  - unfold check_hashable. rewrite (is_str_hashable _ Hs). reflexivity.
  - reflexivity.
Qed.

Lemma unify_tags_texts (m : dict) (tags : list value) :
  tag_mapping m -> Forall is_str tags ->
  unify_tags set_iter (VDict m) tags = Ret (set_iter (map (translate m) tags)).
Proof.
  intros Hm Htags. unfold unify_tags.
  rewrite traverse_translate by assumption. reflexivity.
Qed.

Lemma Forall_is_str_translate (m : dict) (tags : list value) :
  tag_mapping m -> Forall is_str tags -> Forall is_str (map (translate m) tags).
Proof.
  intros Hm Htags. apply Forall_map. revert Htags. apply Forall_impl.
  intro a. apply translate_is_str; exact Hm.
Qed.

Lemma Forall_is_str_set_iter (l : list value) :
  Forall is_str l -> Forall is_str (set_iter l).
Proof.
  destruct set_model as (Hincl & _ & _). intro Hl.
  apply Forall_forall. intros x Hx.
  exact (proj1 (Forall_forall _ _) Hl x (Hincl _ _ Hx)).
Qed.

(** On texts, iterating a set yields exactly the values added to it. *)
Lemma set_iter_members (l : list value) (x : value) :
  Forall is_str l -> (In x (set_iter l) <-> In x l).
Proof.
  destruct set_model as (Hincl & Hstr & _). intro Hl. split; [apply Hincl|].
  intro Hx. destruct (proj1 (Forall_forall _ _) Hl x Hx) as [s ->].
  apply Hstr; exact Hx.
Qed.

(** C2. Fallback law: a tag of a post that is not a key of the mapping
    is still in the tag list of the post after the rewrite step, which
    succeeds on posts whose tags are texts. *)
Theorem rewrite_keeps_unmapped_tag (m d : dict) (tags : list value) (t : string) :
  tag_mapping m ->
  dict_get d "tags" = Some (VList tags) ->
  Forall is_str tags ->
  In (VStr t) tags ->
  dict_get m t = None ->
  exists new_tags,
    rewrite_post set_iter (VDict m) (VDict d)
      = Ret (VDict (dict_set d "tags" (VList new_tags)))
    /\ In (VStr t) new_tags.
Proof.
  intros Hm Hd Htags Hin Hnone.
  exists (set_iter (map (translate m) tags)). split.
  - unfold rewrite_post, getitem. rewrite Hd. cbn [obind iter].
    rewrite unify_tags_texts by assumption. reflexivity.
  - apply set_iter_members; [apply Forall_is_str_translate; assumption|].
    apply in_map_iff. exists (VStr t). split; [|exact Hin].
    simpl. rewrite Hnone. reflexivity.
Qed.

Lemma translate_idempotent (m : dict) (tag : value) :
  canonical_tags_fixed m -> translate m (translate m tag) = translate m tag.
Proof.
  intros Hfix. destruct tag; try reflexivity. simpl.
  destruct (dict_get m s) as [v|] eqn:E.
  - exact (Hfix _ _ E).
  - simpl. rewrite E. reflexivity.
Qed.

(** C7. Idempotence: applying the mapping to a tag list that one
    application produced succeeds and gives the same set of tags,
    provided the canonical tags are fixed points of the mapping. *)
Theorem unify_tags_idempotent (m : dict) (tags once : list value) :
  tag_mapping m ->
  canonical_tags_fixed m ->
  Forall is_str tags ->
  unify_tags set_iter (VDict m) tags = Ret once ->
  exists twice,
    unify_tags set_iter (VDict m) once = Ret twice
    /\ Permutation twice once
    /\ (forall x, In x twice <-> In x once).
Proof.
  intros Hm Hfix Htags Honce.
  rewrite unify_tags_texts in Honce by assumption. injection Honce as <-.
  set (once := set_iter (map (translate m) tags)).
  assert (Hstr1 : Forall is_str (map (translate m) tags))
    by (apply Forall_is_str_translate; assumption).
  assert (Hstr : Forall is_str once) by (apply Forall_is_str_set_iter; exact Hstr1).
  assert (Hid : map (translate m) once = once).
  { rewrite <- (map_id once) at 2. apply map_ext_in. intros x Hx.
    destruct set_model as (Hincl & _ & _). apply Hincl in Hx.
    apply in_map_iff in Hx. destruct Hx as (y & <- & _).
    apply translate_idempotent; exact Hfix. }
  exists (set_iter once).
  assert (Hmem : forall x, In x (set_iter once) <-> In x once)
    by (intro x; apply set_iter_members; exact Hstr).
  split; [|split].
  - rewrite unify_tags_texts by assumption. rewrite Hid. reflexivity.
  - destruct set_model as (_ & _ & Hnd).
    apply NoDup_Permutation; [apply Hnd; exact Hstr | apply Hnd; exact Hstr1 | exact Hmem].
  - exact Hmem.
Qed.

End TagRewrite.

(** ** [first_seen] is an order of iteration of sets *)

Section FirstSeen.

Lemma same_member_str (x : value) (s : string) :
  same_member x (VStr s) = true -> x = VStr s.
Proof.
  destruct x; simpl; try discriminate.
  intro H; apply String.eqb_eq in H; subst; reflexivity.
Qed.

Lemma first_seen_incl (l : list value) (x : value) :
  In x (first_seen l) -> In x l.
Proof.
  induction l as [|a r IH]; simpl; [tauto|].
  intros [->|H]; [left; reflexivity|].
  apply filter_In in H. right; apply IH; tauto.
Qed.

Lemma first_seen_str (l : list value) (s : string) :
  In (VStr s) l -> In (VStr s) (first_seen l).
Proof.
  induction l as [|a r IH]; simpl; [tauto|].
  intros [->|H]; [left; reflexivity|].
  destruct (same_member a (VStr s)) eqn:E.
  - left. apply same_member_str; exact E.
  - right. apply filter_In. split; [apply IH; exact H | rewrite E; reflexivity].
Qed.

Lemma first_seen_nodup (l : list value) :
  Forall is_str l -> NoDup (first_seen l).
Proof.
  induction 1 as [|a r [s ->] _ IH]; simpl; constructor.
  - intro H. apply filter_In in H. destruct H as [_ H].
    simpl in H. rewrite String.eqb_refl in H. discriminate.
  - apply NoDup_filter; exact IH.
Qed.

Lemma first_seen_python_set : python_set first_seen.
Proof.
  split; [exact first_seen_incl | split; [exact first_seen_str | exact first_seen_nodup]].
Qed.

End FirstSeen.

Lemma sample_mapping_texts : tag_mapping sample_mapping.
Proof.
  intros k v H. unfold sample_mapping in H. cbn [dict_get] in H.
  destruct (String.eqb "Travel" k); [injection H as <-; eexists; reflexivity|].
  destruct (String.eqb "Family" k); [injection H as <-; eexists; reflexivity|].
  discriminate.
Qed.

Lemma sample_mapping_fixed : canonical_tags_fixed sample_mapping.
Proof.
  intros k v H. unfold sample_mapping in H. cbn [dict_get] in H.
  destruct (String.eqb "Travel" k); [injection H as <-; reflexivity|].
  destruct (String.eqb "Family" k); [injection H as <-; reflexivity|].
  discriminate.
Qed.

Ltac texts := repeat (constructor; try (eexists; reflexivity)).

Lemma rewrite_keeps_unmapped_tag_witness :
  let d := [("caption", VStr "Job search tips");
            ("tags", VList [VStr "Travel"; VStr "Job Search"])] in
  exists new_tags,
    rewrite_post first_seen (VDict sample_mapping) (VDict d)
      = Ret (VDict (dict_set d "tags" (VList new_tags)))
    /\ In (VStr "Job Search") new_tags.
Proof.
  intro d.
  refine (rewrite_keeps_unmapped_tag first_seen first_seen_python_set
            sample_mapping d [VStr "Travel"; VStr "Job Search"] "Job Search"
            sample_mapping_texts eq_refl _ _ eq_refl).
  - texts.
  - simpl; auto.
Defined.

Lemma unify_tags_idempotent_witness :
  exists twice,
    unify_tags first_seen (VDict sample_mapping)
      [VStr "Travel & Adventure"; VStr "Job Search"] = Ret twice
    /\ Permutation twice [VStr "Travel & Adventure"; VStr "Job Search"]
    /\ (forall x, In x twice <-> In x [VStr "Travel & Adventure"; VStr "Job Search"]).
Proof.
  refine (unify_tags_idempotent first_seen first_seen_python_set sample_mapping
            [VStr "Travel"; VStr "Job Search"; VStr "Travel & Adventure"]
            [VStr "Travel & Adventure"; VStr "Job Search"]
            sample_mapping_texts sample_mapping_fixed _ eq_refl).
  texts.
Defined.

(** ** Laws of the computations *)

Section Laws.

Context {A B C : Type}.

Lemma bind_assoc (m : M A) (f : A -> M B) (g : B -> M C) (w : world) :
  bind (bind m f) g w = bind m (fun x => bind (f x) g) w.
Proof. unfold bind. destruct (m w) as [[a|e] w1]; reflexivity. Qed.

Lemma bind_ext (m : M A) (f g : A -> M B) (w : world) :
  (forall a w', f a w' = g a w') -> bind m f w = bind m g w.
Proof. intro H. unfold bind. destruct (m w) as [[a|e] w1]; [apply H | reflexivity]. Qed.

Lemma bind_ret (a : A) (f : A -> M B) (w : world) : bind (ret a) f w = f a w.
Proof. reflexivity. Qed.

Lemma bind_returns (m : M A) (f : A -> M B) (a : A) (w w1 : world) :
  m w = (Ret a, w1) -> bind m f w = f a w1.
Proof. intro H. unfold bind. rewrite H. reflexivity. Qed.

Lemma bind_raises (m : M A) (f : A -> M B) (e : exn) (w w1 : world) :
  m w = (Raise e, w1) -> bind m f w = (Raise e, w1).
Proof. intro H. unfold bind. rewrite H. reflexivity. Qed.

Lemma attempt_outcome (m : M A) (r : outcome A) (w w1 : world) :
  m w = (r, w1) -> attempt m w = (Ret r, w1).
Proof. intro H. unfold attempt. rewrite H. reflexivity. Qed.

End Laws.

(** ** The first loop, post by post *)

Section EnrichSteps.

Variable llm : nat -> chain_input -> string.

(** A post without caption is skipped with a message. *)
Lemma enrich_skip (post : value) (rest enriched : list value) (w : world) :
  contains post "caption" = Ret false ->
  enrich llm (post :: rest) enriched w
  = enrich llm rest enriched (put_line (SkippingPostWithoutCaption post) w).
Proof.
  intro H. cbn [enrich]. unfold bind at 1, lift at 1. rewrite H. reflexivity.
Qed.

(** A post whose metadata parses is merged with it and appended. *)
Lemma enrich_success (d metadata : dict) (caption : value)
  (rest enriched : list value) (w : world) :
  dict_get d "caption" = Some caption ->
  clean_json_response (llm (List.length (calls w)) (ExtractionInput caption))
    = Ret (VDict metadata) ->
  enrich llm (VDict d :: rest) enriched w
  = enrich llm rest (enriched ++ [VDict (dict_or d metadata)])
      (record_call (ExtractionInput caption) w).
Proof.
  intros Hc Hr. cbn [enrich]. unfold bind at 1, lift at 1. cbn [contains].
  rewrite Hc. cbn [negb]. unfold bind at 1, attempt, enrich_post.
  unfold bind at 1, lift at 1. cbn [getitem]. rewrite Hc.
  unfold bind at 1, extract_metadata. unfold bind at 1, invoke at 1.
  rewrite Hr. unfold lift. reflexivity.
Qed.

(** A post whose metadata does not parse leaves the enriched posts as
    they are; two messages are printed, by [extract_metadata] and by
    [process_posts]. *)
Lemma enrich_failure (d : dict) (caption preview : value) (msg : string)
  (rest enriched : list value) (w : world) :
  dict_get d "caption" = Some caption ->
  prefix caption 100 = Ret preview ->
  let input := ExtractionInput caption in
  let response := llm (List.length (calls w)) input in
  clean_json_response response = Raise (OutputParserException msg) ->
  enrich llm (VDict d :: rest) enriched w
  = enrich llm rest enriched
      (put_line (ErrorExtractingMetadata preview (OutputParserException msg))
         (put_line (FailedToParseResponse preview response)
            (record_call input w))).
Proof.
  intros Hc Hp input response Hr. cbn [enrich].
  unfold bind at 1, lift at 1. cbn [contains].
  rewrite Hc. cbn [negb]. unfold bind at 1, attempt, enrich_post.
  unfold bind at 1, lift at 1. cbn [getitem]. rewrite Hc.
  unfold bind at 1, extract_metadata. unfold bind at 1, invoke at 1.
  fold input. fold response. rewrite Hr.
  unfold bind at 1, lift at 1. rewrite Hp.
  unfold bind at 1, print at 1. unfold raise at 1.
  unfold bind at 1, lift at 1. unfold bind at 1, lift at 1. rewrite Hp.
  unfold bind at 1, print at 1. reflexivity.
Qed.

(** The loop over a concatenation is the loop over the first part
    followed by the loop over the second. *)
Lemma enrich_app (pre rest enriched : list value) (w : world) :
  enrich llm (pre ++ rest) enriched w
  = bind (enrich llm pre enriched) (enrich llm rest) w.
Proof.
  revert enriched w. induction pre as [|post pre IH]; intros enriched w.
  - reflexivity.
  - cbn [app enrich]. rewrite bind_assoc. apply bind_ext. intros has w1.
    destruct (negb has).
    + rewrite bind_assoc. apply bind_ext. intros _ w2. apply IH.
    + rewrite bind_assoc. apply bind_ext. intros r w2.
      destruct r as [p|e]; [apply IH|].
      destruct e; try reflexivity.
      do 3 (rewrite bind_assoc; apply bind_ext; intros ? ?). apply IH.
Qed.

(** The posts enriched by the loop are appended to those it starts
    with. *)
Lemma enrich_acc (posts enriched : list value) (w : world) :
  enrich llm posts enriched w
  = bind (enrich llm posts []) (fun added => ret (enriched ++ added)%list) w.
Proof.
  revert enriched w. induction posts as [|post rest IH]; intros enriched w.
  - cbn [enrich]. unfold bind, ret. rewrite app_nil_r. reflexivity.
  - cbn [enrich]. rewrite bind_assoc. apply bind_ext. intros has w1.
    destruct (negb has).
    + rewrite bind_assoc. apply bind_ext. intros _ w2. apply IH.
    + rewrite bind_assoc. apply bind_ext. intros r w2.
      destruct r as [p|e].
      * rewrite (IH (enriched ++ [p])%list). unfold bind at 2.
        rewrite (IH ([] ++ [p])%list). unfold bind, ret.
        destruct (enrich llm rest [] w2) as [[added|e] w3]; [|reflexivity].
        rewrite <- app_assoc. reflexivity.
      * destruct e; try reflexivity.
        do 3 (rewrite bind_assoc; apply bind_ext; intros ? ?). apply IH.
Qed.

End EnrichSteps.

(** ** What the first loop leaves untouched *)

Section Footprint.

Variable llm : nat -> chain_input -> string.

Lemma extraction_only_refl (w : world) : extraction_only w w.
Proof.
  repeat split. exists []. split; [symmetry; apply app_nil_r | constructor].
Qed.

Lemma extraction_only_trans (w1 w2 w3 : world) :
  extraction_only w1 w2 -> extraction_only w2 w3 -> extraction_only w1 w3.
Proof.
  intros (Hf & Hg & cs & Hc & Hcs) (Hf' & Hg' & cs' & Hc' & Hcs').
  split; [congruence|]. split; [congruence|].
  exists (cs ++ cs')%list. split.
  - rewrite Hc', Hc, app_assoc. reflexivity.
  - apply Forall_app; split; assumption.
Qed.

Lemma quiet_ret {A} (a : A) : quiet (ret a).
Proof. intro w. apply extraction_only_refl. Qed.

Lemma quiet_raise {A} (e : exn) : quiet (@raise A e).
Proof. intro w. apply extraction_only_refl. Qed.

Lemma quiet_lift {A} (o : outcome A) : quiet (lift o).
Proof. intro w. apply extraction_only_refl. Qed.

Lemma quiet_print (d : diagnostic) : quiet (print d).
Proof.
  intro w. repeat split. exists []. split; [symmetry; apply app_nil_r | constructor].
Qed.

Lemma quiet_invoke (post : value) : quiet (invoke llm (ExtractionInput post)).
Proof.
  intro w. repeat split. exists [ExtractionInput post].
  split; [reflexivity | repeat constructor].
Qed.

Lemma quiet_bind {A B} (m : M A) (k : A -> M B) :
  quiet m -> (forall a, quiet (k a)) -> quiet (bind m k).
Proof.
  intros Hm Hk w. unfold bind. specialize (Hm w).
  destruct (m w) as [[a|e] w1]; simpl in *; [|exact Hm].
  eapply extraction_only_trans; [exact Hm | apply Hk].
Qed.

Lemma quiet_attempt {A} (m : M A) : quiet m -> quiet (attempt m).
Proof.
  intros Hm w. unfold attempt. specialize (Hm w).
  destruct (m w) as [r w1]; exact Hm.
Qed.

Ltac quiet_step :=
  first
    [ apply quiet_ret | apply quiet_raise | apply quiet_lift | apply quiet_print
    | apply quiet_invoke | apply quiet_attempt
    | apply quiet_bind; [|intro] ].

Lemma quiet_extract_metadata (post : value) : quiet (extract_metadata llm post).
Proof.
  unfold extract_metadata. quiet_step; [quiet_step|].
  destruct (clean_json_response a) as [v|e]; [quiet_step|].
  destruct e; repeat quiet_step.
Qed.

Lemma quiet_enrich_post (post : value) : quiet (enrich_post llm post).
Proof.
  unfold enrich_post. quiet_step; [quiet_step|].
  quiet_step; [apply quiet_extract_metadata | quiet_step].
Qed.

Lemma quiet_enrich (posts enriched : list value) : quiet (enrich llm posts enriched).
Proof.
  revert enriched. induction posts as [|post rest IH]; intro enriched; cbn [enrich].
  - quiet_step.
  - quiet_step; [quiet_step|]. destruct (negb a).
    + quiet_step; [quiet_step | apply IH].
    + quiet_step; [quiet_step; apply quiet_enrich_post|].
      destruct a0 as [p|e]; [apply IH|].
      destruct e; try apply quiet_raise.
      quiet_step; [quiet_step|]. quiet_step; [quiet_step|].
      quiet_step; [quiet_step | apply IH].
Qed.

Lemma enrich_footprint (posts enriched : list value) (r : outcome (list value))
  (w w1 : world) :
  enrich llm posts enriched w = (r, w1) -> extraction_only w w1.
Proof.
  intro H. pose proof (quiet_enrich posts enriched w) as Hq.
  rewrite H in Hq. exact Hq.
Qed.

End Footprint.

(** ** Runs of [process_posts] *)

Section Runs.

Variable llm : nat -> chain_input -> string.
Variable set_iter : list value -> list value.

Lemma process_posts_loaded (raw : string) (dst : option string)
  (posts : value) (items : list value) (w w1 : world) :
  load raw w = (Ret posts, w1) ->
  iter posts = Ret items ->
  process_posts llm set_iter raw dst w = run_batch llm set_iter items dst w1.
Proof.
  intros Hl Hi. unfold process_posts.
  rewrite (bind_returns _ _ _ _ _ (attempt_outcome _ _ _ _ Hl)).
  unfold bind at 1, lift at 1. rewrite Hi. reflexivity.
Qed.

Lemma run_batch_enriched (items enriched : list value) (dst : option string)
  (w w1 : world) :
  enrich llm items [] w = (Ret enriched, w1) ->
  run_batch llm set_iter items dst w = finish llm set_iter enriched dst w1.
Proof.
  intro H. unfold run_batch.
  exact (bind_returns _ (fun e => finish llm set_iter e dst) _ _ _ H).
Qed.

Lemma process_posts_enriched (raw : string) (dst : option string)
  (posts : value) (items enriched : list value) (w w1 : world) :
  load raw w = (Ret posts, w) ->
  iter posts = Ret items ->
  enrich llm items [] w = (Ret enriched, w1) ->
  process_posts llm set_iter raw dst w = finish llm set_iter enriched dst w1.
Proof.
  intros Hl Hi He. rewrite (process_posts_loaded _ _ _ _ _ _ Hl Hi).
  apply run_batch_enriched. exact He.
Qed.

(** C3. Failure isolation. In any batch, when the response of the
    model for the caption of a post does not parse, the enriched
    sequence of the batch is the one of the posts before it followed by
    the one of the posts after it: the post is absent, nothing is merged
    into it, and the loop goes on. Two messages are printed (by
    [extract_metadata] and by [process_posts]) with the first hundred
    characters of the caption, and the rest of the run, the writing
    included, works on that enriched sequence. *)
Theorem failed_extraction_drops_post
  (before rest enriched : list value) (d : dict) (caption preview : value)
  (msg : string) (dst : option string) (w w1 : world) :
  enrich llm before [] w = (Ret enriched, w1) ->
  dict_get d "caption" = Some caption ->
  prefix caption 100 = Ret preview ->
  let input := ExtractionInput caption in
  let response := llm (List.length (calls w1)) input in
  let w2 :=
    put_line (ErrorExtractingMetadata preview (OutputParserException msg))
      (put_line (FailedToParseResponse preview response) (record_call input w1)) in
  clean_json_response response = Raise (OutputParserException msg) ->
  enrich llm (before ++ VDict d :: rest) [] w
  = bind (enrich llm rest []) (fun added => ret (enriched ++ added)%list) w2
  /\ run_batch llm set_iter (before ++ VDict d :: rest) dst w
     = bind (enrich llm rest [])
         (fun added => finish llm set_iter (enriched ++ added)%list dst) w2.
Proof.
  intros Hb Hc Hp input response w2 Hr.
  assert (E : enrich llm (before ++ VDict d :: rest) [] w
              = bind (enrich llm rest [])
                  (fun added => ret (enriched ++ added)%list) w2).
  { rewrite enrich_app. rewrite (bind_returns _ _ _ _ _ Hb).
    rewrite (enrich_failure llm d caption preview msg rest enriched w1 Hc Hp Hr).
    apply enrich_acc. }
  split; [exact E|].
  unfold run_batch. unfold bind at 1. rewrite E.
  unfold bind, ret. destruct (enrich llm rest [] w2) as [[added|e] w3]; reflexivity.
Qed.

(** C4. An empty enriched sequence ends the run: one message is
    printed, [process_posts] returns, no file has been written and the
    model has been called for extraction only. *)
Theorem empty_batch_aborts (raw : string) (dst : option string)
  (posts : value) (items : list value) (w w1 : world) :
  load raw w = (Ret posts, w) ->
  iter posts = Ret items ->
  enrich llm items [] w = (Ret [], w1) ->
  let w2 := put_line NoEnrichedPosts w1 in
  process_posts llm set_iter raw dst w = (Ret tt, w2)
  /\ files w2 = files w
  /\ stdout w2 = (stdout w1 ++ [NoEnrichedPosts])%list
  /\ exists cs, calls w2 = (calls w ++ cs)%list /\ Forall is_extraction cs.
Proof.
  intros Hl Hi He w2.
  destruct (enrich_footprint llm _ _ _ _ _ He) as (Hf & _ & Hcalls).
  split; [|split; [exact Hf | split; [reflexivity | exact Hcalls]]].
  rewrite (process_posts_enriched _ _ _ _ _ _ _ Hl Hi He). reflexivity.
Qed.

Lemma enrich_all_dropped (items enriched : list value) (w : world) :
  Forall (dropped llm) items ->
  exists w1, enrich llm items enriched w = (Ret enriched, w1).
Proof.
  intro H. revert w. induction H as [|post rest Hp _ IH]; intro w.
  - exists w. reflexivity.
  - destruct Hp as (d & -> & [Hnone | (caption & Hc & Hfail)]).
    + rewrite enrich_skip by (cbn [contains]; rewrite Hnone; reflexivity).
      apply IH.
    + destruct (Hfail (List.length (calls w))) as [msg Hmsg].
      rewrite (enrich_failure llm d (VStr caption) _ msg rest enriched w Hc eq_refl Hmsg).
      apply IH.
Qed.

End Runs.

(** ** Aggregating the tags and unifying them *)

Section Unification.

Variable llm : nat -> chain_input -> string.
Variable set_iter : list value -> list value.

Lemma collect_tags_app (before rest unique : list value) :
  collect_tags (before ++ rest) unique
  = obind (collect_tags before unique) (collect_tags rest).
Proof.
  revert unique. induction before as [|post before IH]; intro unique; [reflexivity|].
  cbn [app collect_tags].
  destruct (getitem post "tags") as [tags|e]; [|reflexivity]. cbn [obind].
  destruct (iter tags) as [items|e]; [|reflexivity]. cbn [obind].
  destruct (traverse check_hashable items) as [items'|e]; [|reflexivity]. cbn [obind].
  apply IH.
Qed.

Lemma traverse_as_str_texts (tags : list value) :
  Forall is_str tags -> exists names, traverse as_str tags = Ret names.
Proof.
  induction 1 as [|tag r [s ->] _ [names IH]]; [exists []; reflexivity|].
  exists (s :: names). cbn [traverse]. rewrite IH. reflexivity.
Qed.

Lemma collect_tags_no_tags (posts unique : list value) :
  Forall no_tags posts -> collect_tags posts unique = Ret unique.
Proof.
  induction 1 as [|post rest (tags & Hg & Hi) _ IH]; [reflexivity|].
  cbn [collect_tags]. rewrite Hg. cbn [obind]. rewrite Hi. cbn [obind traverse].
  rewrite app_nil_r. exact IH.
Qed.

Lemma traverse_check_hashable (items : list value) :
  forallb hashable items = true -> traverse check_hashable items = Ret items.
Proof.
  induction items as [|x r IH]; [reflexivity|]. cbn [forallb traverse].
  intro H. apply andb_prop in H. destruct H as [Hx Hr].
  unfold check_hashable at 1. rewrite Hx. cbn [obind]. rewrite (IH Hr). reflexivity.
Qed.

Lemma collect_tags_has_tags (posts unique : list value) :
  Forall has_tags posts ->
  exists unique', collect_tags posts unique = Ret unique'.
Proof.
  intro H. revert unique.
  induction H as [|post rest (tags & items & Hg & Hi & Hh) _ IH]; intro unique.
  - exists unique; reflexivity.
  - cbn [collect_tags]. rewrite Hg. cbn [obind]. rewrite Hi. cbn [obind].
    rewrite (traverse_check_hashable _ Hh). cbn [obind]. apply IH.
Qed.

Lemma get_unified_tags_collect_raises (posts : list value) (e : exn) (w : world) :
  collect_tags posts [] = Raise e ->
  get_unified_tags llm set_iter posts w = (Raise e, w).
Proof.
  intro H. unfold get_unified_tags, bind, lift. rewrite H. reflexivity.
Qed.

Lemma get_unified_tags_empty (posts : list value) (w : world) :
  collect_tags posts [] = Ret [] ->
  get_unified_tags llm set_iter posts w
  = (Raise (OutputParserException "No tags found to unify."), w).
Proof.
  intro H. unfold get_unified_tags, bind, lift. rewrite H. reflexivity.
Qed.

Lemma get_unified_tags_returns (posts unique : list value) (names : list string)
  (unified : value) (w : world) :
  collect_tags posts [] = Ret unique ->
  unique <> [] ->
  traverse as_str (set_iter unique) = Ret names ->
  clean_json_response
    (llm (List.length (calls w)) (UnificationInput (join "," names))) = Ret unified ->
  get_unified_tags llm set_iter posts w
  = (Ret unified, record_call (UnificationInput (join "," names)) w).
Proof.
  intros Hc Hne Hn Hr. unfold get_unified_tags.
  unfold bind at 1, lift at 1. rewrite Hc.
  destruct unique as [|x r]; [contradiction|].
  unfold bind at 1, lift at 1. rewrite Hn.
  unfold bind at 1, invoke at 1. rewrite Hr. reflexivity.
Qed.

(** What [process_posts] does after the first loop when unification
    raises: an [OutputParserException] is reported and the function
    returns; any other exception goes up. *)
Lemma finish_unification_raises (enriched : list value) (dst : option string)
  (e : exn) (w w1 : world) :
  enriched <> [] ->
  get_unified_tags llm set_iter enriched w = (Raise e, w1) ->
  finish llm set_iter enriched dst w
  = match e with
    | OutputParserException msg => (Ret tt, put_line (ErrorUnifyingTags e) w1)
    | _ => (Raise e, w1)
    end.
Proof.
  intros Hne H. destruct enriched as [|p r]; [contradiction|].
  unfold finish.
  rewrite (bind_returns _ _ _ _ _ (attempt_outcome _ _ _ _ H)).
  destruct e; reflexivity.
Qed.

(** What [process_posts] does after the first loop when unification
    returns: the posts are rewritten and dumped. *)
Lemma finish_unified (enriched rewritten : list value) (dst : option string)
  (unified : value) (w w1 : world) :
  enriched <> [] ->
  get_unified_tags llm set_iter enriched w = (Ret unified, w1) ->
  traverse (rewrite_post set_iter unified) enriched = Ret rewritten ->
  finish llm set_iter enriched dst w
  = match dump rewritten dst w1 with
    | (Raise OSError, w2) => (Ret tt, put_line (ErrorWritingProcessedPosts OSError) w2)
    | r => r
    end.
Proof.
  intros Hne H Hrw. destruct enriched as [|p r]; [contradiction|].
  unfold finish.
  rewrite (bind_returns _ _ _ _ _ (attempt_outcome _ _ _ _ H)).
  unfold bind at 1, lift at 1. rewrite Hrw.
  unfold bind, attempt. destruct (dump rewritten dst w1) as [[[]|e] w2];
    [reflexivity | destruct e; reflexivity].
Qed.

(** C5. Empty vocabulary. When no enriched post contributes a tag,
    [get_unified_tags] raises "No tags found to unify." before calling
    the model; [process_posts] reports it and returns. No file has been
    written and the model has been called for extraction only. *)
Theorem empty_vocabulary_aborts (raw : string) (dst : option string)
  (posts : value) (items enriched : list value) (w w1 : world) :
  load raw w = (Ret posts, w) ->
  iter posts = Ret items ->
  enrich llm items [] w = (Ret enriched, w1) ->
  enriched <> [] ->
  Forall no_tags enriched ->
  let e := OutputParserException "No tags found to unify." in
  let w2 := put_line (ErrorUnifyingTags e) w1 in
  get_unified_tags llm set_iter enriched w1 = (Raise e, w1)
  /\ process_posts llm set_iter raw dst w = (Ret tt, w2)
  /\ files w2 = files w
  /\ exists cs, calls w2 = (calls w ++ cs)%list /\ Forall is_extraction cs.
Proof.
  intros Hl Hi He Hne Hnone e w2.
  assert (Hu : get_unified_tags llm set_iter enriched w1 = (Raise e, w1))
    by (apply get_unified_tags_empty, collect_tags_no_tags; exact Hnone).
  destruct (enrich_footprint llm _ _ _ _ _ He) as (Hf & _ & Hcalls).
  split; [exact Hu|]. split; [|split; [exact Hf | exact Hcalls]].
  rewrite (process_posts_enriched _ _ _ _ _ _ _ _ _ Hl Hi He).
  rewrite (finish_unification_raises _ _ _ _ _ Hne Hu). reflexivity.
Qed.

(** Whatever the other posts are, a post without [tags] makes the
    aggregation raise: [KeyError] on that post, or [TypeError] on an
    earlier post whose tags cannot be added to a set. *)
Lemma collect_tags_missing_field (posts unique : list value) (d : dict) :
  In (VDict d) posts ->
  dict_get d "tags" = None ->
  collect_tags posts unique = Raise (KeyError "tags")
  \/ collect_tags posts unique = Raise TypeError.
Proof.
  intros Hin Hd. revert unique.
  induction posts as [|post rest IH]; intro unique; [destruct Hin|].
  cbn [collect_tags].
  destruct Hin as [-> | Hin].
  - left. cbn [getitem]. rewrite Hd. reflexivity.
  - destruct post; try (right; reflexivity). cbn [getitem].
    destruct (dict_get entries "tags") as [tags|] eqn:E; [|left; reflexivity].
    cbn [obind]. destruct tags; try (right; reflexivity); cbn [iter obind].
    all: match goal with
         | |- context [traverse check_hashable ?l] =>
             destruct (traverse check_hashable l) as [items'|e] eqn:Et
         end.
    all: try (cbn [obind]; apply IH; exact Hin).
    all: right; cbn [obind]; f_equal.
    all: clear -Et;
      match type of Et with
      | traverse _ ?l = _ => revert e Et; generalize l
      end;
      intro l; induction l as [|x r IHl]; intros e Et; [discriminate|];
      cbn [traverse] in Et; unfold check_hashable at 1 in Et;
      destruct (hashable x); [|injection Et as <-; reflexivity];
      cbn [obind] in Et;
      destruct (traverse check_hashable r) as [ys|e'] eqn:Er;
      [discriminate | injection Et as <-; apply IHl; reflexivity].
Qed.

(** C10. Nothing checks that the metadata has a [tags] field. When an
    enriched post lacks it and the posts before it have tags that can be
    added to a set, the aggregation raises [KeyError] on that post, the
    exception leaves [process_posts], and no file has been written nor
    has the unification been requested. The rewrite step raises the same
    exception on such a post. *)
Theorem missing_tags_raises_key_error (raw : string) (dst : option string)
  (posts : value) (items before rest : list value) (d : dict) (w w1 : world) :
  load raw w = (Ret posts, w) ->
  iter posts = Ret items ->
  enrich llm items [] w = (Ret (before ++ VDict d :: rest)%list, w1) ->
  Forall has_tags before ->
  dict_get d "tags" = None ->
  process_posts llm set_iter raw dst w = (Raise (KeyError "tags"), w1)
  /\ files w1 = files w
  /\ (exists cs, calls w1 = (calls w ++ cs)%list /\ Forall is_extraction cs)
  /\ collect_tags (before ++ VDict d :: rest) [] = Raise (KeyError "tags")
  /\ forall unified, rewrite_post set_iter unified (VDict d) = Raise (KeyError "tags").
Proof.
  intros Hl Hi He Hb Hd.
  assert (Hc : collect_tags (before ++ VDict d :: rest) [] = Raise (KeyError "tags")).
  { rewrite collect_tags_app.
    destruct (collect_tags_has_tags before [] Hb) as [u ->].
    cbn [obind collect_tags getitem]. rewrite Hd. reflexivity. }
  destruct (enrich_footprint llm _ _ _ _ _ He) as (Hf & _ & Hcalls).
  split; [|split; [exact Hf | split; [exact Hcalls | split; [exact Hc|]]]].
  - rewrite (process_posts_enriched _ _ _ _ _ _ _ _ _ Hl Hi He).
    rewrite (finish_unification_raises _ dst (KeyError "tags") w1 w1).
    + reflexivity.
    + intro E. destruct before; discriminate E.
    + apply get_unified_tags_collect_raises. exact Hc.
  - intro unified. unfold rewrite_post. cbn [getitem]. rewrite Hd. reflexivity.
Qed.

End Unification.

(** ** Errors of the file system *)

Section FileErrors.

Variable llm : nat -> chain_input -> string.
Variable set_iter : list value -> list value.

(** C8, amended. A missing or malformed source file and a destination
    that cannot be opened or written do not end [process_posts] with an
    exception: the error is caught where it occurs, a message is printed
    and the function returns. After a load error the world is otherwise
    unchanged; when the destination cannot be opened, no file has been
    touched. *)
Theorem io_errors_are_reported (raw : string) (dst : option string) (w : world) :
  (forall e,
     load raw w = (Raise e, w) ->
     e = FileNotFoundError raw \/ e = JSONDecodeError ->
     process_posts llm set_iter raw dst w
     = (Ret tt, put_line (ErrorReadingRawPosts e) w))
  /\ (forall posts items enriched unified rewritten p w1 w2,
        load raw w = (Ret posts, w) ->
        iter posts = Ret items ->
        enrich llm items [] w = (Ret enriched, w1) ->
        enriched <> [] ->
        get_unified_tags llm set_iter enriched w1 = (Ret unified, w2) ->
        traverse (rewrite_post set_iter unified) enriched = Ret rewritten ->
        dst = Some p ->
        faults w2 p <> None ->
        exists w3,
          process_posts llm set_iter raw dst w
          = (Ret tt, put_line (ErrorWritingProcessedPosts OSError) w3)
          /\ (faults w2 p = Some OpenFails -> w3 = w2)).
Proof.
  split.
  - intros e Hl He. unfold process_posts.
    rewrite (bind_returns _ _ _ _ _ (attempt_outcome _ _ _ _ Hl)).
    destruct He as [-> | ->]; reflexivity.
  - intros posts items enriched unified rewritten p w1 w2 Hl Hi He Hne Hu Hrw -> Hf.
    rewrite (process_posts_enriched _ _ _ _ _ _ _ _ _ Hl Hi He).
    rewrite (finish_unified _ _ _ _ _ _ _ _ Hne Hu Hrw).
    unfold dump. destruct (faults w2 p) as [[|]|]; [| |contradiction].
    + exists w2. split; reflexivity.
    + exists (put_file p Truncated w2). split; [reflexivity | discriminate].
Qed.

End FileErrors.

(** C8, as stated, fails: with the source file missing, [process_posts]
    returns normally after printing its message. *)
Lemma load_errors_do_not_propagate : ~ load_errors_propagate.
Proof.
  intro H.
  destruct (H silent_llm first_seen raw_posts_path (Some processed_posts_path)
              empty_world (FileNotFoundError raw_posts_path) eq_refl) as [w' Hw'].
  vm_compute in Hw'. discriminate Hw'.
Qed.

Lemma io_errors_are_reported_witness :
  process_posts silent_llm first_seen raw_posts_path (Some processed_posts_path)
    empty_world
  = (Ret tt,
     put_line (ErrorReadingRawPosts (FileNotFoundError raw_posts_path)) empty_world)
  /\ exists w3,
       process_posts scenario_llm first_seen raw_posts_path
         (Some processed_posts_path) locked_world
       = (Ret tt, put_line (ErrorWritingProcessedPosts OSError) w3)
       /\ files w3 = files locked_world.
Proof.
  split.
  - exact (proj1 (io_errors_are_reported silent_llm first_seen raw_posts_path
                    (Some processed_posts_path) empty_world)
                 (FileNotFoundError raw_posts_path) eq_refl (or_introl eq_refl)).
  - set (enriched := [enriched_post caption_a [VStr "Travel"; VStr "Family"];
                      enriched_post caption_b [VStr "Job Search"]]).
    set (w1 := snd (enrich scenario_llm [post_a; post_b] [] locked_world)).
    set (w2 := snd (get_unified_tags scenario_llm first_seen enriched w1)).
    destruct (proj2 (io_errors_are_reported scenario_llm first_seen raw_posts_path
                       (Some processed_posts_path) locked_world)
                    (VList [post_a; post_b]) [post_a; post_b] enriched
                    (VDict sample_mapping)
                    [enriched_post caption_a
                       [VStr "Travel & Adventure"; VStr "Family & Couples"];
                     enriched_post caption_b [VStr "Job Search"]]
                    processed_posts_path w1 w2)
      as (w3 & Hrun & Hsame).
    + vm_compute. reflexivity.
    + reflexivity.
    + vm_compute. reflexivity.
    + discriminate.
    + vm_compute. reflexivity.
    + vm_compute. reflexivity.
    + reflexivity.
    + vm_compute. discriminate.
    + exists w3. split; [exact Hrun|].
      rewrite (Hsame ltac:(vm_compute; reflexivity)). vm_compute. reflexivity.
Defined.

(** ** The end-to-end scenario *)

Section EndToEnd.

Variable llm : nat -> chain_input -> string.
Variable set_iter : list value -> list value.
Hypothesis set_model : python_set set_iter.

Lemma set_iter_single_text (s : string) : set_iter [VStr s] = [VStr s].
Proof.
  destruct set_model as (Hincl & Hstr & Hnd).
  assert (Hin : In (VStr s) (set_iter [VStr s])) by (apply Hstr; left; reflexivity).
  assert (Hall : forall x, In x (set_iter [VStr s]) -> x = VStr s).
  { intros x Hx. apply Hincl in Hx. destruct Hx as [<-|[]]. reflexivity. }
  assert (Hno : NoDup (set_iter [VStr s]))
    by (apply Hnd; repeat constructor; eexists; reflexivity).
  destruct (set_iter [VStr s]) as [|a [|b r]].
  - destruct Hin.
  - rewrite (Hall a) by (left; reflexivity). reflexivity.
  - exfalso. inversion Hno as [|? ? Hnotin _]; subst. apply Hnotin.
    rewrite (Hall a), (Hall b) by (simpl; auto). left; reflexivity.
Qed.

(** C1. End to end: on the batch of A and B, with the three responses
    of the scenario, [process_posts] returns after writing both posts to
    the destination; the tags of A are "Travel & Adventure" and
    "Family & Couples" in some order, the tags of B are "Job Search"
    alone. Nothing is printed and the model is called three times. *)
Theorem end_to_end_two_posts :
  llm 0%nat (ExtractionInput (VStr caption_a)) = response_a ->
  llm 1%nat (ExtractionInput (VStr caption_b)) = response_b ->
  (forall tags, llm 2%nat (UnificationInput tags) = response_u) ->
  exists tags_a w',
    process_posts llm set_iter raw_posts_path (Some processed_posts_path) batch_world
      = (Ret tt, w')
    /\ files w' processed_posts_path
       = Some (Dump (VList [enriched_post caption_a tags_a;
                            enriched_post caption_b [VStr "Job Search"]]))
    /\ Permutation tags_a [VStr "Travel & Adventure"; VStr "Family & Couples"]
    /\ stdout w' = []
    /\ List.length (calls w') = 3%nat.
Proof.
  intros Ha Hb Hu.
  set (post_a := VDict [("caption", VStr caption_a)]).
  set (post_b := VDict [("caption", VStr caption_b)]).
  set (input_a := ExtractionInput (VStr caption_a)).
  set (input_b := ExtractionInput (VStr caption_b)).
  set (w1 := record_call input_a batch_world).
  set (w2 := record_call input_b w1).
  set (pa := enriched_post caption_a [VStr "Travel"; VStr "Family"]).
  set (pb := enriched_post caption_b [VStr "Job Search"]).
  assert (Hl : load raw_posts_path batch_world = (Ret (VList [post_a; post_b]), batch_world))
    by (vm_compute; reflexivity).
  assert (He : enrich llm [post_a; post_b] [] batch_world = (Ret [pa; pb], w2)).
  { unfold post_a.
    rewrite (enrich_success llm _
               [("line_count", VInt 1); ("language", VStr "English");
                ("tags", VList [VStr "Travel"; VStr "Family"])] (VStr caption_a));
      [| reflexivity
       | change (List.length (calls batch_world)) with 0%nat; rewrite Ha;
         vm_compute; reflexivity ].
    unfold post_b.
    rewrite (enrich_success llm _
               [("line_count", VInt 1); ("language", VStr "English");
                ("tags", VList [VStr "Job Search"])] (VStr caption_b));
      [| reflexivity
       | change (List.length (calls (record_call (ExtractionInput (VStr caption_a))
                                       batch_world))) with 1%nat;
         rewrite Hb; vm_compute; reflexivity ].
    reflexivity. }
  set (unique := [VStr "Travel"; VStr "Family"; VStr "Job Search"]).
  assert (Hc : collect_tags [pa; pb] [] = Ret unique) by reflexivity.
  assert (Hs : Forall is_str unique) by (unfold unique; texts).
  destruct (traverse_as_str_texts _ (Forall_is_str_set_iter set_iter set_model _ Hs))
    as [names Hn].
  set (input_u := UnificationInput (join "," names)).
  set (w3 := record_call input_u w2).
  assert (Hg : get_unified_tags llm set_iter [pa; pb] w2 = (Ret (VDict sample_mapping), w3)).
  { apply (get_unified_tags_returns llm set_iter _ unique names); try assumption.
    - discriminate.
    - change (List.length (calls w2)) with 2%nat. rewrite Hu. vm_compute. reflexivity. }
  set (tags_a := set_iter [VStr "Travel & Adventure"; VStr "Family & Couples"]).
  assert (Hrw : traverse (rewrite_post set_iter (VDict sample_mapping)) [pa; pb]
                = Ret [enriched_post caption_a tags_a;
                       enriched_post caption_b [VStr "Job Search"]]).
  { rewrite <- (set_iter_single_text "Job Search"). reflexivity. }
  exists tags_a.
  exists (put_file processed_posts_path
            (Dump (VList [enriched_post caption_a tags_a;
                          enriched_post caption_b [VStr "Job Search"]])) w3).
  split; [|split; [|split; [|split]]].
  - rewrite (process_posts_enriched llm set_iter _ _ _ _ _ _ _ Hl eq_refl He).
    assert (Hne : [pa; pb] <> []) by discriminate.
    rewrite (finish_unified llm set_iter _ _ _ _ _ _ Hne Hg Hrw).
    reflexivity.
  - reflexivity.
  - destruct set_model as (_ & _ & Hnd).
    apply NoDup_Permutation.
    + apply Hnd. texts.
    + repeat constructor; simpl; intuition discriminate.
    + intro x. apply (set_iter_members set_iter set_model). texts.
  - reflexivity.
  - reflexivity.
Qed.

End EndToEnd.

Lemma end_to_end_two_posts_witness :
  exists tags_a w',
    process_posts scenario_llm first_seen raw_posts_path (Some processed_posts_path)
      batch_world = (Ret tt, w')
    /\ files w' processed_posts_path
       = Some (Dump (VList [enriched_post caption_a tags_a;
                            enriched_post caption_b [VStr "Job Search"]]))
    /\ Permutation tags_a [VStr "Travel & Adventure"; VStr "Family & Couples"]
    /\ stdout w' = []
    /\ List.length (calls w') = 3%nat.
Proof.
  exact (end_to_end_two_posts scenario_llm first_seen first_seen_python_set
           eq_refl eq_refl (fun _ => eq_refl)).
Defined.

(** ** Runs with failing or incomplete responses *)

Lemma failed_extraction_drops_post_witness :
  let enriched := [enriched_post caption_a [VStr "Travel"; VStr "Family"]] in
  let w1 := record_call (ExtractionInput (VStr caption_a)) batch_world in
  let preview := VStr caption_b in
  let w2 :=
    put_line (ErrorExtractingMetadata preview (OutputParserException refusal))
      (put_line (FailedToParseResponse preview "Sorry, no tags}")
         (record_call (ExtractionInput (VStr caption_b)) w1)) in
  enrich flaky_llm ([post_a] ++ post_b :: [post_a]) [] batch_world
    = bind (enrich flaky_llm [post_a] []) (fun added => ret (enriched ++ added)%list) w2
  /\ run_batch flaky_llm first_seen ([post_a] ++ post_b :: [post_a])
       (Some processed_posts_path) batch_world
     = bind (enrich flaky_llm [post_a] [])
         (fun added =>
            finish flaky_llm first_seen (enriched ++ added)%list
              (Some processed_posts_path)) w2.
Proof.
  exact (failed_extraction_drops_post flaky_llm first_seen
           [post_a] [post_a] _ [("caption", VStr caption_b)] (VStr caption_b) _ refusal
           (Some processed_posts_path) batch_world _ eq_refl eq_refl eq_refl eq_refl).
Defined.

Lemma empty_batch_aborts_witness :
  let w1 := snd (enrich refusing_llm [post_a; post_b] [] batch_world) in
  let w2 := put_line NoEnrichedPosts w1 in
  process_posts refusing_llm first_seen raw_posts_path (Some processed_posts_path)
    batch_world = (Ret tt, w2)
  /\ files w2 = files batch_world
  /\ stdout w2 = (stdout w1 ++ [NoEnrichedPosts])%list
  /\ exists cs, calls w2 = (calls batch_world ++ cs)%list /\ Forall is_extraction cs.
Proof.
  refine (empty_batch_aborts refusing_llm first_seen raw_posts_path
            (Some processed_posts_path) (VList [post_a; post_b]) [post_a; post_b]
            batch_world _ _ eq_refl _).
  - vm_compute. reflexivity.
  - vm_compute. reflexivity.
Defined.

Lemma empty_vocabulary_aborts_witness :
  let e := OutputParserException "No tags found to unify." in
  let enriched := [enriched_post caption_a []; enriched_post caption_b []] in
  let w1 := snd (enrich tagless_llm [post_a; post_b] [] batch_world) in
  let w2 := put_line (ErrorUnifyingTags e) w1 in
  get_unified_tags tagless_llm first_seen enriched w1 = (Raise e, w1)
  /\ process_posts tagless_llm first_seen raw_posts_path (Some processed_posts_path)
       batch_world = (Ret tt, w2)
  /\ files w2 = files batch_world
  /\ exists cs, calls w2 = (calls batch_world ++ cs)%list /\ Forall is_extraction cs.
Proof.
  refine (empty_vocabulary_aborts tagless_llm first_seen raw_posts_path
            (Some processed_posts_path) (VList [post_a; post_b]) [post_a; post_b]
            [enriched_post caption_a []; enriched_post caption_b []]
            batch_world _ _ eq_refl _ _ _).
  - vm_compute. reflexivity.
  - vm_compute. reflexivity.
  - discriminate.
  - repeat constructor; exists (VList []); split; reflexivity.
Defined.

Lemma missing_tags_raises_key_error_witness :
  let w1 := snd (enrich careless_llm [post_a; post_b] [] batch_world) in
  process_posts careless_llm first_seen raw_posts_path (Some processed_posts_path)
    batch_world = (Raise (KeyError "tags"), w1)
  /\ files w1 = files batch_world
  /\ (exists cs, calls w1 = (calls batch_world ++ cs)%list /\ Forall is_extraction cs)
  /\ collect_tags ([enriched_post caption_a [VStr "Travel"; VStr "Family"]]
                   ++ post_b :: []) [] = Raise (KeyError "tags")
  /\ forall unified, rewrite_post first_seen unified post_b = Raise (KeyError "tags").
Proof.
  refine (missing_tags_raises_key_error careless_llm first_seen raw_posts_path
            (Some processed_posts_path) (VList [post_a; post_b]) [post_a; post_b]
            [enriched_post caption_a [VStr "Travel"; VStr "Family"]] []
            [("caption", VStr caption_b)]
            batch_world _ _ eq_refl _ _ eq_refl).
  - vm_compute. reflexivity.
  - vm_compute. reflexivity.
  - repeat constructor. eexists _, _. split; [reflexivity|]. split; reflexivity.
Defined.

(** * Further properties *)

(** ** [clean_json_response]: what is parsed and what is raised *)

Section ResponseSlices.

Lemma chars_app (a b : string) : chars (a ++ b) = (chars a ++ chars b)%list.
Proof. induction a as [|c a IH]; simpl; [reflexivity | f_equal; exact IH]. Qed.

Lemma text_chars (s : string) : text (chars s) = s.
Proof. apply string_of_list_ascii_of_string. Qed.

Lemma find_from_first (c : ascii) (l1 l2 : list ascii) (i : Z) :
  ~ In c l1 -> find_from c (l1 ++ c :: l2) i = i + Z.of_nat (List.length l1).
Proof.
  revert i. induction l1 as [|x l1 IH]; intros i Hno; cbn [app find_from].
  - rewrite Ascii.eqb_refl. simpl; lia.
  - destruct (Ascii.eqb_spec x c) as [->|_]; [exfalso; apply Hno; left; reflexivity|].
    rewrite IH by (intro; apply Hno; right; assumption). simpl List.length. lia.
Qed.

Lemma rfind_from_absent (c : ascii) (l : list ascii) (i best : Z) :
  ~ In c l -> rfind_from c l i best = best.
Proof.
  revert i best. induction l as [|x l IH]; intros i best Hno; cbn [rfind_from];
    [reflexivity|].
  destruct (Ascii.eqb_spec x c) as [->|_]; [exfalso; apply Hno; left; reflexivity|].
  apply IH. intro; apply Hno; right; assumption.
Qed.

Lemma slice_list_middle {A} (before body after : list A) :
  slice_list (before ++ body ++ after)
    (Z.of_nat (List.length before))
    (Z.of_nat (List.length before) + Z.of_nat (List.length body))
  = body.
Proof.
  unfold slice_list. rewrite !length_app, !Nat2Z.inj_add.
  set (p := Z.of_nat (List.length before)). set (b := Z.of_nat (List.length body)).
  set (a := Z.of_nat (List.length after)).
  assert (Hp : 0 <= p) by (unfold p; lia). assert (Hb : 0 <= b) by (unfold b; lia).
  assert (Ha : 0 <= a) by (unfold a; lia).
  assert (E1 : clamp (p + (b + a)) p = p).
  { unfold clamp. destruct (p <? 0) eqn:E; [apply Z.ltb_lt in E; lia | lia]. }
  assert (E2 : clamp (p + (b + a)) (p + b) = p + b).
  { unfold clamp. destruct (p + b <? 0) eqn:E; [apply Z.ltb_lt in E; lia | lia]. }
  rewrite E1, E2. replace (p + b - p) with b by lia. unfold p, b.
  rewrite !Nat2Z.id. rewrite skipn_app, skipn_all, Nat.sub_diag. cbn [app skipn].
  rewrite firstn_app, firstn_all, Nat.sub_diag. cbn [firstn]. apply app_nil_r.
Qed.

(** X1. [clean_json_response] returns objects only: what it returns is a
    dictionary, and its keys are distinct. *)
Theorem clean_json_response_returns_object (response : string) (v : value) :
  clean_json_response response = Ret v ->
  exists d, v = VDict d /\ NoDup (keys d).
Proof. apply clean_json_response_object. Qed.

Lemma clean_json_response_returns_object_witness :
  exists d,
    VDict [("line_count", VInt 1); ("language", VStr "English");
           ("tags", VList [VStr "Job Search"])] = VDict d
    /\ NoDup (keys d).
Proof.
  exact (clean_json_response_returns_object response_b _ eq_refl).
Defined.

(** X2. What stands before the first opening brace and after the last
    closing brace does not count: when the text before has no opening
    brace and the text after has no closing brace, the response is
    parsed as the part between the braces alone, and a failure to parse
    that part is reported with the whole response. *)
Theorem clean_json_response_ignores_commentary (before inner after : string) :
  ~ In "{"%char (chars before) ->
  ~ In "}"%char (chars after) ->
  let body := "{" ++ inner ++ "}" in
  clean_json_response (before ++ body ++ after)
  = match Json.loads body with
    | Raise JSONDecodeError =>
        Raise (OutputParserException
                 ("Invalid JSON content:" ++ nl ++ before ++ body ++ after))
    | r => r
    end.
Proof.
  intros Hb Ha body. unfold clean_json_response, find, rfind, slice.
  assert (Hbody : chars body = ("{"%char :: chars inner ++ ["}"%char])%list).
  { unfold body. change ("{" ++ inner ++ "}") with (String "{" (inner ++ "}")).
    cbn [chars list_ascii_of_string]. f_equal. apply chars_app. }
  assert (Hl : chars (before ++ body ++ after)
               = (chars before ++ chars body ++ chars after)%list)
    by (rewrite !chars_app; reflexivity).
  rewrite Hl.
  assert (Hf : find_from "{" (chars before ++ chars body ++ chars after) 0
               = Z.of_nat (List.length (chars before))).
  { rewrite Hbody. cbn [app]. rewrite find_from_first by exact Hb. lia. }
  assert (Hr : rfind_from "}" (chars before ++ chars body ++ chars after) 0 (-1) + 1
               = Z.of_nat (List.length (chars before))
                 + Z.of_nat (List.length (chars body))).
  { rewrite !rfind_from_app. rewrite (rfind_from_absent _ (chars after)) by exact Ha.
    rewrite Hbody. change ("{"%char :: chars inner ++ ["}"%char])%list
      with (("{"%char :: chars inner) ++ ["}"%char])%list.
    rewrite rfind_from_app. cbn [rfind_from]. rewrite Ascii.eqb_refl.
    rewrite length_app. simpl List.length. lia. }
  rewrite Hf, Hr, slice_list_middle, text_chars. reflexivity.
Qed.

Lemma clean_json_response_ignores_commentary_witness :
  clean_json_response
    (("Here you go:" ++ nl) ++ ("{" ++ jq "'tags':['Motivation']" ++ "}") ++ " Thanks!")
  = Ret (VDict [("tags", VList [VStr "Motivation"])]).
Proof.
  refine (clean_json_response_ignores_commentary
            ("Here you go:" ++ nl) (jq "'tags':['Motivation']") " Thanks!" _ _);
    simpl; intuition discriminate.
Defined.

(** X3. When the last closing brace stands before the first opening
    brace, or there is no closing brace at all, nothing is parsed and the
    exception carries the whole response. *)
Theorem clean_json_response_brace_order (response : string) :
  rfind response "}" < find response "{" ->
  clean_json_response response
  = Raise (OutputParserException ("Invalid JSON content:" ++ nl ++ response)).
Proof.
  unfold clean_json_response, find, rfind, slice. intro H.
  set (l := chars response) in *.
  pose proof (rfind_from_range "}" l 0 (-1) ltac:(lia)) as Hr.
  assert (Hempty : slice_list l (find_from "{" l 0) (rfind_from "}" l 0 (-1) + 1) = []).
  { unfold slice_list. set (n := Z.of_nat (List.length l)) in *.
    set (a := find_from "{" l 0) in *. set (b := rfind_from "}" l 0 (-1) + 1).
    assert (Hle : clamp n b <= clamp n a).
    { unfold clamp.
      destruct (a <? 0) eqn:Ea; [apply Z.ltb_lt in Ea; lia|].
      destruct (b <? 0) eqn:Eb; [apply Z.ltb_lt in Eb; lia|].
      apply Z.ltb_ge in Ea, Eb. unfold b. lia. }
    replace (Z.to_nat (clamp n b - clamp n a)) with 0%nat by lia. reflexivity. }
  rewrite Hempty. reflexivity.
Qed.

Lemma clean_json_response_brace_order_witness :
  clean_json_response "} and then {"
  = Raise (OutputParserException ("Invalid JSON content:" ++ nl ++ "} and then {")).
Proof.
  refine (clean_json_response_brace_order "} and then {" _).
  vm_compute. reflexivity.
Defined.



End ResponseSlices.

(** ** [extract_metadata]: one call, and what a failure leaves *)

Section ExtractorRuns.

Variable llm : nat -> chain_input -> string.

Lemma clean_json_response_message (response msg : string) :
  clean_json_response response = Raise (OutputParserException msg) ->
  msg = "Invalid JSON content:" ++ nl ++ response.
Proof.
  unfold clean_json_response. intro H.
  destruct (Json.loads _) as [v|e] eqn:El; [discriminate|].
  unfold Json.loads in El.
  destruct (Json.scan_once _ _) as [v rest| | |];
    try (destruct (Json.skip_ws rest));
    try discriminate; injection El as <-; try discriminate.
  all: injection H as <-; reflexivity.
Qed.

Lemma prefix_raises (v : value) (n : Z) (e : exn) :
  prefix v n = Raise e -> e = TypeError.
Proof. destruct v; simpl; intro H; try discriminate; injection H as <-; reflexivity. Qed.

(** X5. [extract_metadata] calls the model exactly once, with the post
    it was given, whatever the response and whatever the outcome; it
    writes no file and prints at most one line. *)
Theorem extract_metadata_calls_once (post : value) (w : world) :
  let w' := snd (extract_metadata llm post w) in
  calls w' = (calls w ++ [ExtractionInput post])%list
  /\ files w' = files w
  /\ (stdout w' = stdout w \/ exists d, stdout w' = (stdout w ++ [d])%list).
Proof.
  unfold extract_metadata, bind, invoke, lift, print, raise.
  destruct (clean_json_response _) as [v|e]; [simpl; auto|].
  destruct e; try (simpl; auto).
  destruct (prefix post 100) as [preview|e]; simpl; eauto.
Qed.

(** X6. When [extract_metadata] raises an [OutputParserException], it is
    the one of [clean_json_response], with the whole response in its
    message, and the only trace left is the call and one printed line
    with the first hundred characters of the post and the response. *)
Theorem extract_metadata_reraises (post : value) (msg : string) (w w' : world) :
  extract_metadata llm post w = (Raise (OutputParserException msg), w') ->
  let response := llm (List.length (calls w)) (ExtractionInput post) in
  clean_json_response response = Raise (OutputParserException msg)
  /\ msg = "Invalid JSON content:" ++ nl ++ response
  /\ exists preview,
       prefix post 100 = Ret preview
       /\ w' = put_line (FailedToParseResponse preview response)
                 (record_call (ExtractionInput post) w).
Proof.
  intros H response. unfold extract_metadata, bind, invoke, lift, print, raise in H.
  fold response in H.
  destruct (clean_json_response response) as [v|e] eqn:Ec; [discriminate|].
  destruct e; try discriminate.
  destruct (prefix post 100) as [preview|e] eqn:Ep.
  - injection H as <- <-. split; [reflexivity|].
    split; [apply (clean_json_response_message _ _ Ec)|].
    exists preview. split; reflexivity.
  - apply prefix_raises in Ep. subst e. discriminate.
Qed.

End ExtractorRuns.

Lemma extract_metadata_reraises_witness :
  clean_json_response "Sorry, no tags}" = Raise (OutputParserException refusal)
  /\ refusal = "Invalid JSON content:" ++ nl ++ "Sorry, no tags}"
  /\ exists preview,
       prefix (VStr caption_b) 100 = Ret preview
       /\ put_line (FailedToParseResponse (VStr caption_b) "Sorry, no tags}")
            (record_call (ExtractionInput (VStr caption_b)) empty_world)
          = put_line (FailedToParseResponse preview "Sorry, no tags}")
              (record_call (ExtractionInput (VStr caption_b)) empty_world).
Proof.
  exact (extract_metadata_reraises refusing_llm (VStr caption_b) refusal empty_world _
           (eq_refl : extract_metadata refusing_llm (VStr caption_b) empty_world
                      = (Raise (OutputParserException refusal),
                         put_line (FailedToParseResponse (VStr caption_b) "Sorry, no tags}")
                           (record_call (ExtractionInput (VStr caption_b)) empty_world)))).
Defined.

(** ** The first loop: what it keeps, calls and prints *)

Section LoopInvariants.

Variable llm : nat -> chain_input -> string.

Lemma enrich_post_cases (post : value) (w : world) :
  enrich_post llm post w
  = match getitem post "caption" with
    | Raise e => (Raise e, w)
    | Ret c =>
        let response := llm (List.length (calls w)) (ExtractionInput c) in
        let w1 := record_call (ExtractionInput c) w in
        match clean_json_response response with
        | Ret metadata => (or_ post metadata, w1)
        | Raise (OutputParserException msg) =>
            match prefix c 100 with
            | Ret preview =>
                (Raise (OutputParserException msg),
                 put_line (FailedToParseResponse preview response) w1)
            | Raise e => (Raise e, w1)
            end
        | Raise e => (Raise e, w1)
        end
    end.
Proof.
  unfold enrich_post, extract_metadata, bind, lift, invoke, print, raise.
  destruct (getitem post "caption") as [c|e]; [|reflexivity]. cbv zeta.
  destruct (clean_json_response _) as [v|e]; [reflexivity|].
  destruct e; try reflexivity.
  destruct (prefix c 100); reflexivity.
Qed.

(** The three ways in which the loop gets past a post. *)
Lemma enrich_cons_inv (post : value) (rest enriched out : list value) (w w' : world) :
  enrich llm (post :: rest) enriched w = (Ret out, w') ->
  (contains post "caption" = Ret false
   /\ enrich llm rest enriched (put_line (SkippingPostWithoutCaption post) w)
      = (Ret out, w'))
  \/ (exists d c metadata,
        post = VDict d /\ dict_get d "caption" = Some c
        /\ clean_json_response (llm (List.length (calls w)) (ExtractionInput c))
           = Ret (VDict metadata)
        /\ NoDup (keys metadata)
        /\ enrich llm rest (enriched ++ [VDict (dict_or d metadata)])
             (record_call (ExtractionInput c) w) = (Ret out, w'))
  \/ (exists d c msg preview,
        post = VDict d /\ dict_get d "caption" = Some c
        /\ clean_json_response (llm (List.length (calls w)) (ExtractionInput c))
           = Raise (OutputParserException msg)
        /\ prefix c 100 = Ret preview
        /\ enrich llm rest enriched
             (put_line (ErrorExtractingMetadata preview (OutputParserException msg))
                (put_line
                   (FailedToParseResponse preview
                      (llm (List.length (calls w)) (ExtractionInput c)))
                   (record_call (ExtractionInput c) w)))
           = (Ret out, w')).
Proof.
  intro H. cbn [enrich] in H. unfold bind at 1, lift at 1 in H.
  destruct (contains post "caption") as [[|]|e] eqn:Ec; [| |discriminate].
  - right. cbn [negb] in H. unfold bind at 1, attempt in H.
    rewrite enrich_post_cases in H.
    destruct post as [| | | |s|items|entries]; try discriminate Ec.
    1, 2: cbn [getitem] in H; cbv beta iota zeta in H; unfold raise in H;
      discriminate H.
    cbn [getitem] in H. cbn [contains] in Ec.
    destruct (dict_get entries "caption") as [c|] eqn:Ed; [|discriminate Ec].
    cbv zeta in H. unfold raise in H.
    destruct (clean_json_response _) as [v|e] eqn:Er.
    + left. destruct (clean_json_response_object _ _ Er) as (metadata & -> & Hnd).
      exists entries, c, metadata. cbn [or_] in H. repeat split; assumption.
    + right. destruct e; try (cbv beta iota zeta in H; discriminate H).
      destruct (prefix c 100) as [preview|e] eqn:Ep;
        [|apply prefix_raises in Ep; subst e; cbv beta iota zeta in H; discriminate H].
      cbv beta iota zeta in H. unfold bind, lift, print in H. rewrite Ep in H.
      exists entries, c, msg, preview. repeat split; assumption.
  - left. cbn [negb] in H. unfold bind at 1, print at 1 in H. split; [reflexivity | exact H].
Qed.

Lemma enrich_provenance (posts enriched out : list value) (w w' : world) :
  enrich llm posts enriched w = (Ret out, w') ->
  exists added, out = (enriched ++ added)%list /\ enriched_from posts added.
Proof.
  revert enriched w. induction posts as [|post rest IH]; intros enriched w H.
  - injection H as <- <-. exists []. split; [symmetry; apply app_nil_r | constructor].
  - destruct (enrich_cons_inv _ _ _ _ _ _ H)
      as [(_ & Hr) | [(d & c & metadata & -> & Hc & _ & Hnd & Hr)
                     | (d & c & msg & preview & -> & _ & _ & _ & Hr)]].
    + destruct (IH _ _ Hr) as (added & -> & Hadd).
      exists added. split; [reflexivity | constructor; exact Hadd].
    + destruct (IH _ _ Hr) as (added & -> & Hadd).
      exists (VDict (dict_or d metadata) :: added). split.
      * rewrite <- app_assoc. reflexivity.
      * constructor; [rewrite Hc; discriminate | exact Hnd | exact Hadd].
    + destruct (IH _ _ Hr) as (added & -> & Hadd).
      exists added. split; [reflexivity | constructor; exact Hadd].
Qed.

(** X7. When the first loop returns, the enriched posts are, in the
    order of the batch, posts of the batch that are objects with a
    caption, each merged with a metadata object with distinct keys:
    nothing else enters the sequence and the order is kept. *)
Theorem enrich_keeps_order (posts out : list value) (w w' : world) :
  enrich llm posts [] w = (Ret out, w') -> enriched_from posts out.
Proof.
  intro H. destruct (enrich_provenance _ _ _ _ _ H) as (added & -> & Hadd). exact Hadd.
Qed.

Lemma captions_skipped (post : value) :
  contains post "caption" = Ret false -> captions [post] = [].
Proof.
  destruct post; try reflexivity. cbn [contains captions flat_map].
  destruct (dict_get entries "caption"); [discriminate | reflexivity].
Qed.

Lemma captions_cons (post : value) (rest : list value) :
  captions (post :: rest) = (captions [post] ++ captions rest)%list.
Proof. unfold captions. cbn [flat_map]. rewrite app_nil_r. reflexivity. Qed.

(** X8. When the first loop returns, the model has been called once for
    each post that is an object with a caption, with that caption, in
    the order of the batch, and for nothing else. *)
Theorem enrich_calls_once_per_caption (posts enriched out : list value) (w w' : world) :
  enrich llm posts enriched w = (Ret out, w') ->
  calls w' = (calls w ++ map ExtractionInput (captions posts))%list.
Proof.
  revert enriched w. induction posts as [|post rest IH]; intros enriched w H.
  - injection H as _ <-. symmetry. apply app_nil_r.
  - rewrite captions_cons, map_app.
    destruct (enrich_cons_inv _ _ _ _ _ _ H)
      as [(Hs & Hr) | [(d & c & metadata & -> & Hc & _ & _ & Hr)
                      | (d & c & msg & preview & -> & Hc & _ & _ & Hr)]].
    + rewrite (IH _ _ Hr), (captions_skipped _ Hs). reflexivity.
    + rewrite (IH _ _ Hr). cbn [captions flat_map]. rewrite Hc.
      cbn [record_call calls app map]. rewrite <- app_assoc. reflexivity.
    + rewrite (IH _ _ Hr). cbn [captions flat_map]. rewrite Hc.
      cbn [put_line record_call calls app map]. rewrite <- app_assoc. reflexivity.
Qed.

(** X9. When the first loop returns, every post of the batch is
    accounted for: it is enriched, or announced as skipped, or announced
    as failed. *)
Theorem enrich_accounts_for_every_post (posts enriched out : list value)
  (w w' : world) :
  enrich llm posts enriched w = (Ret out, w') ->
  exists lines,
    stdout w' = (stdout w ++ lines)%list
    /\ (List.length posts + List.length enriched
        = List.length out
          + List.length (filter is_skip lines)
          + List.length (filter is_extraction_error lines))%nat.
Proof.
  revert enriched w. induction posts as [|post rest IH]; intros enriched w H.
  - injection H as <- <-. exists []. split; [symmetry; apply app_nil_r | simpl; lia].
  - destruct (enrich_cons_inv _ _ _ _ _ _ H)
      as [(_ & Hr) | [(d & c & metadata & -> & _ & _ & _ & Hr)
                     | (d & c & msg & preview & -> & _ & _ & _ & Hr)]];
      destruct (IH _ _ Hr) as (lines & Hl & Hn).
    + exists (SkippingPostWithoutCaption post :: lines). split.
      * rewrite Hl. cbn [put_line stdout]. rewrite <- app_assoc. reflexivity.
      * cbn [filter is_skip is_extraction_error]. simpl List.length. lia.
    + exists lines. split; [exact Hl|].
      rewrite length_app in Hn. simpl List.length in *. lia.
    + exists (FailedToParseResponse preview
                (llm (List.length (calls w)) (ExtractionInput c))
              :: ErrorExtractingMetadata preview (OutputParserException msg) :: lines).
      split.
      * rewrite Hl. cbn [put_line record_call stdout]. rewrite <- !app_assoc. reflexivity.
      * cbn [filter is_skip is_extraction_error]. simpl List.length. lia.
Qed.

(** X10. Posts without caption cost nothing: on a batch of objects
    without caption the loop returns the enriched posts it started with,
    prints one line per post, in order, and does not call the model. *)
Theorem enrich_skips_posts_without_caption (posts enriched : list value) (w : world) :
  Forall lacks_caption posts ->
  enrich llm posts enriched w
  = (Ret enriched,
     World (files w) (faults w)
       (stdout w ++ map SkippingPostWithoutCaption posts) (calls w)).
Proof.
  intro H. revert w. induction H as [|post rest (d & -> & Hd) _ IH]; intro w.
  - cbn [enrich map]. rewrite app_nil_r. destruct w; reflexivity.
  - rewrite enrich_skip by (cbn [contains]; rewrite Hd; reflexivity).
    rewrite IH. cbn [put_line files faults stdout calls map].
    rewrite <- app_assoc. reflexivity.
Qed.

End LoopInvariants.

Lemma enrich_keeps_order_witness :
  enriched_from [post_a; post_b; post_a]
    [enriched_post caption_a [VStr "Travel"; VStr "Family"]].
Proof.
  exact (enrich_keeps_order flaky_llm [post_a; post_b; post_a] _ batch_world _ eq_refl).
Defined.

Lemma enrich_calls_once_per_caption_witness :
  calls (snd (enrich flaky_llm [post_a; VDict []; post_b] [] batch_world))
  = (calls batch_world
     ++ map ExtractionInput (captions [post_a; VDict []; post_b]))%list.
Proof.
  refine (enrich_calls_once_per_caption flaky_llm [post_a; VDict []; post_b] []
            [enriched_post caption_a [VStr "Travel"; VStr "Family"]] batch_world _ _).
  vm_compute. reflexivity.
Defined.

Lemma enrich_accounts_for_every_post_witness :
  exists lines,
    stdout (snd (enrich flaky_llm [post_a; VDict []; post_b] [] batch_world))
    = (stdout batch_world ++ lines)%list
    /\ (List.length [post_a; VDict []; post_b] + List.length (@nil value)
        = List.length [enriched_post caption_a [VStr "Travel"; VStr "Family"]]
          + List.length (filter is_skip lines)
          + List.length (filter is_extraction_error lines))%nat.
Proof.
  refine (enrich_accounts_for_every_post flaky_llm [post_a; VDict []; post_b] []
            [enriched_post caption_a [VStr "Travel"; VStr "Family"]] batch_world _ _).
  vm_compute. reflexivity.
Defined.

Lemma enrich_skips_posts_without_caption_witness :
  enrich silent_llm [VDict []; VDict [("text", VStr "no caption here")]] [] empty_world
  = (Ret [],
     World (files empty_world) (faults empty_world)
       (stdout empty_world
        ++ map SkippingPostWithoutCaption
             [VDict []; VDict [("text", VStr "no caption here")]])
       (calls empty_world)).
Proof.
  refine (enrich_skips_posts_without_caption silent_llm _ [] empty_world _).
  repeat constructor; eexists; split; reflexivity.
Defined.

(** ** [get_unified_tags]: one call, its listing, its failures *)

Section UnifierRuns.

Variable llm : nat -> chain_input -> string.
Variable set_iter : list value -> list value.

Lemma collect_tags_text (posts unique : list value) :
  Forall text_tags posts ->
  collect_tags posts unique = Ret (unique ++ all_tags posts)%list
  /\ Forall is_str (all_tags posts).
Proof.
  intro H. revert unique.
  induction H as [|post rest (d & tags & -> & Hd & Ht) _ IH]; intro unique.
  - cbn [collect_tags all_tags flat_map]. rewrite app_nil_r. split; constructor.
  - destruct (IH (unique ++ tags)%list) as [Hc Hs]. split.
    + cbn [collect_tags getitem]. rewrite Hd. cbn [obind iter].
      rewrite traverse_check_hashable
        by (clear -Ht; induction Ht as [|x r [s ->] _ IHt]; [reflexivity | exact IHt]).
      cbn [obind]. rewrite Hc. unfold all_tags. cbn [flat_map tags_of]. rewrite Hd.
      rewrite app_assoc. reflexivity.
    + unfold all_tags. cbn [flat_map tags_of]. rewrite Hd.
      apply Forall_app. split; assumption.
Qed.

Lemma collect_tags_raises (posts unique : list value) (e : exn) :
  collect_tags posts unique = Raise e -> e = KeyError "tags" \/ e = TypeError.
Proof.
  revert unique. induction posts as [|post rest IH]; intros unique H; [discriminate|].
  cbn [collect_tags] in H.
  destruct (getitem post "tags") as [tags|e1] eqn:Eg.
  - cbn [obind] in H. destruct (iter tags) as [items|e2] eqn:Ei.
    + cbn [obind] in H.
      destruct (traverse check_hashable items) as [items'|e3] eqn:Et.
      * cbn [obind] in H. exact (IH _ H).
      * cbn [obind] in H. injection H as <-. right. clear -Et.
        revert e3 Et. induction items as [|x r IHr]; intros e3 Et; [discriminate|].
        cbn [traverse] in Et. unfold check_hashable at 1 in Et.
        destruct (hashable x); [|injection Et as <-; reflexivity].
        cbn [obind] in Et.
        destruct (traverse check_hashable r) as [ys|e'] eqn:Er; [discriminate|].
        injection Et as <-. apply IHr. reflexivity.
    + cbn [obind] in H. injection H as <-. right.
      destruct tags; try discriminate; injection Ei as <-; reflexivity.
  - cbn [obind] in H. injection H as <-.
    destruct post; try (right; injection Eg as <-; reflexivity).
    cbn [getitem] in Eg. destruct (dict_get entries "tags"); [discriminate|].
    left. injection Eg as <-. reflexivity.
Qed.

Lemma traverse_as_str_raises (items : list value) (e : exn) :
  traverse as_str items = Raise e -> e = TypeError.
Proof.
  revert e. induction items as [|x r IH]; intros e H; [discriminate|].
  cbn [traverse] in H. destruct x; cbn [as_str obind] in H;
    try (injection H as <-; reflexivity).
  destruct (traverse as_str r) as [ys|e'] eqn:Er; [discriminate|].
  cbn [obind] in H. injection H as <-. apply IH. reflexivity.
Qed.

Lemma traverse_as_str_names (items : list value) (names : list string) :
  traverse as_str items = Ret names -> items = map VStr names.
Proof.
  revert names. induction items as [|x r IH]; intros names H.
  - injection H as <-. reflexivity.
  - cbn [traverse] in H. destruct x; cbn [as_str obind] in H; try discriminate.
    destruct (traverse as_str r) as [ys|e'] eqn:Er; [|discriminate].
    cbn [obind] in H. injection H as <-. cbn [map]. f_equal. apply IH. reflexivity.
Qed.

(** What [get_unified_tags] does in each case. *)
Lemma get_unified_tags_cases (posts : list value) (w : world) :
  get_unified_tags llm set_iter posts w
  = match collect_tags posts [] with
    | Raise e => (Raise e, w)
    | Ret [] => (Raise (OutputParserException "No tags found to unify."), w)
    | Ret unique =>
        match traverse as_str (set_iter unique) with
        | Raise e => (Raise e, w)
        | Ret names =>
            let input := UnificationInput (join "," names) in
            let response := llm (List.length (calls w)) input in
            match clean_json_response response with
            | Raise (OutputParserException msg) =>
                (Raise (OutputParserException msg),
                 put_line (FailedToParseUnifiedTags response) (record_call input w))
            | r => (r, record_call input w)
            end
        end
    end.
Proof.
  unfold get_unified_tags, bind, lift, invoke, print, raise.
  destruct (collect_tags posts []) as [[|x unique]|e]; try reflexivity.
  destruct (traverse as_str (set_iter (x :: unique))) as [names|e]; [|reflexivity].
  cbv zeta. destruct (clean_json_response _) as [v|e]; [reflexivity|].
  destruct e; reflexivity.
Qed.

(** X11. On posts whose tags are lists of texts, with at least one tag,
    [get_unified_tags] calls the model exactly once, whatever the
    response: the listing it sends joins with commas the tags of the
    batch, each of them once, and what it returns or raises is what
    [clean_json_response] returns or raises on the response. No file is
    written. *)
Theorem get_unified_tags_sends_each_tag_once (posts : list value) :
  python_set set_iter ->
  Forall text_tags posts ->
  all_tags posts <> [] ->
  exists names,
    NoDup names
    /\ (forall s, In s names <-> In (VStr s) (all_tags posts))
    /\ forall w,
         let input := UnificationInput (join "," names) in
         let run := get_unified_tags llm set_iter posts w in
         fst run = clean_json_response (llm (List.length (calls w)) input)
         /\ calls (snd run) = (calls w ++ [input])%list
         /\ files (snd run) = files w.
Proof.
  intros Hset Hposts Hne.
  destruct (collect_tags_text posts [] Hposts) as [Hc Hs]. cbn [app] in Hc.
  destruct (traverse_as_str_texts _ (Forall_is_str_set_iter set_iter Hset _ Hs))
    as [names Hn].
  pose proof (traverse_as_str_names _ _ Hn) as Hmap.
  exists names. split; [|split].
  - destruct Hset as (_ & _ & Hnd). specialize (Hnd _ Hs). rewrite Hmap in Hnd.
    clear -Hnd. induction names as [|s r IH]; [constructor|].
    cbn [map] in Hnd. inversion Hnd as [|? ? Hnotin Hr]; subst.
    constructor; [|apply IH; exact Hr].
    intro Hin. apply Hnotin. apply in_map. exact Hin.
  - intro s. rewrite <- (set_iter_members set_iter Hset _ (VStr s) Hs). rewrite Hmap.
    split; [apply in_map|].
    intro Hin. apply in_map_iff in Hin. destruct Hin as (s' & E & Hin).
    injection E as ->. exact Hin.
  - intros w input run. unfold run. rewrite get_unified_tags_cases, Hc.
    destruct (all_tags posts) as [|x unique] eqn:Ea; [contradiction|].
    rewrite Hn. cbv zeta. fold input.
    destruct (clean_json_response _) as [v|e]; [repeat split|].
    destruct e; repeat split.
Qed.

(** X12. [get_unified_tags] returns objects only: the mapping it returns
    is a dictionary with distinct keys. *)
Theorem get_unified_tags_returns_object (posts : list value) (unified : value)
  (w w' : world) :
  get_unified_tags llm set_iter posts w = (Ret unified, w') ->
  exists d, unified = VDict d /\ NoDup (keys d).
Proof.
  rewrite get_unified_tags_cases. intro H.
  destruct (collect_tags posts []) as [[|x unique]|e]; try discriminate.
  destruct (traverse as_str _) as [names|e]; [|discriminate].
  cbv zeta in H. destruct (clean_json_response _) as [v|e] eqn:Er.
  - injection H as <- _. exact (clean_json_response_object _ _ Er).
  - destruct e; discriminate.
Qed.


End UnifierRuns.

Lemma get_unified_tags_sends_each_tag_once_witness :
  let posts := [enriched_post caption_a [VStr "Travel"; VStr "Family"];
                enriched_post caption_b [VStr "Travel"]] in
  exists names,
    NoDup names
    /\ (forall s, In s names <-> In (VStr s) (all_tags posts))
    /\ forall w,
         let input := UnificationInput (join "," names) in
         let run := get_unified_tags scenario_llm first_seen posts w in
         fst run = clean_json_response (scenario_llm (List.length (calls w)) input)
         /\ calls (snd run) = (calls w ++ [input])%list
         /\ files (snd run) = files w.
Proof.
  intro posts.
  refine (get_unified_tags_sends_each_tag_once scenario_llm first_seen posts
            first_seen_python_set _ _).
  - repeat constructor; eexists _, _; (split; [reflexivity|]); (split; [reflexivity|]);
      texts.
  - discriminate.
Defined.

Lemma get_unified_tags_returns_object_witness :
  exists d, VDict sample_mapping = VDict d /\ NoDup (keys d).
Proof.
  exact (get_unified_tags_returns_object scenario_llm first_seen
           [enriched_post caption_b [VStr "Job Search"]] (VDict sample_mapping)
           (World (fun _ => None) (fun _ => None) []
              [ExtractionInput (VStr caption_a); ExtractionInput (VStr caption_b)])
           _ eq_refl).
Defined.


(** ** The merge and the rewrite: what they keep *)

Section FieldsKept.

Variable set_iter : list value -> list value.

Lemma keys_dict_set_present (d : dict) (k : string) (v : value) :
  dict_get d k <> None -> keys (dict_set d k v) = keys d.
Proof.
  induction d as [|[k' v'] r IH]; simpl; intro H; [contradiction|].
  destruct (String.eqb k' k); simpl; [reflexivity|]. f_equal. apply IH. exact H.
Qed.

Lemma keys_dict_set_absent (d : dict) (k : string) (v : value) :
  dict_get d k = None -> keys (dict_set d k v) = (keys d ++ [k])%list.
Proof.
  induction d as [|[k' v'] r IH]; simpl; intro H; [reflexivity|].
  destruct (String.eqb k' k); simpl; [discriminate|]. f_equal. apply IH. exact H.
Qed.


(** X15. The rewrite step changes the tags only: when it returns, the
    post has the same keys in the same order, and every field other
    than the tags has the value it had. *)
Theorem rewrite_post_changes_tags_only (unified : value) (d : dict) (post' : value) :
  rewrite_post set_iter unified (VDict d) = Ret post' ->
  exists d',
    post' = VDict d'
    /\ keys d' = keys d
    /\ forall k, k <> "tags" -> dict_get d' k = dict_get d k.
Proof.
  unfold rewrite_post. cbn [getitem]. intro H.
  destruct (dict_get d "tags") as [current|] eqn:Ed; [|discriminate].
  cbn [obind] in H. destruct (iter current) as [items|e]; [|discriminate].
  cbn [obind] in H. destruct (unify_tags set_iter unified items) as [new_tags|e];
    [|discriminate].
  cbn [obind setitem] in H. injection H as <-.
  exists (dict_set d "tags" (VList new_tags)). split; [reflexivity|]. split.
  - apply keys_dict_set_present. rewrite Ed. discriminate.
  - intros k Hk. apply dict_get_set_other. congruence.
Qed.

(** X16. On a post whose tags are texts and for a mapping from texts to
    texts, the rewrite step returns; the new tags are exactly the images
    of the old ones (the canonical tag when the tag is a key of the
    mapping, the tag itself otherwise), each of them once: tags sent to
    the same canonical tag are merged. *)
Theorem rewrite_post_new_tags (m d : dict) (tags : list value) :
  python_set set_iter ->
  tag_mapping m ->
  dict_get d "tags" = Some (VList tags) ->
  Forall is_str tags ->
  exists new_tags,
    rewrite_post set_iter (VDict m) (VDict d)
      = Ret (VDict (dict_set d "tags" (VList new_tags)))
    /\ NoDup new_tags
    /\ forall x, In x new_tags <-> exists t, In t tags /\ x = translate m t.
Proof.
  intros Hset Hm Hd Htags.
  pose proof (Forall_is_str_translate m tags Hm Htags) as Hs.
  exists (set_iter (map (translate m) tags)). split; [|split].
  - unfold rewrite_post, getitem. rewrite Hd. cbn [obind iter].
    rewrite unify_tags_texts by assumption. reflexivity.
  - destruct Hset as (_ & _ & Hnd). apply Hnd. exact Hs.
  - intro x. rewrite (set_iter_members set_iter Hset _ x Hs). rewrite in_map_iff.
    split; intros (t & H1 & H2); exists t; auto.
Qed.

End FieldsKept.


Lemma rewrite_post_changes_tags_only_witness :
  exists d',
    enriched_post caption_a [VStr "Travel & Adventure"; VStr "Family & Couples"]
    = VDict d'
    /\ keys d' = ["caption"; "line_count"; "language"; "tags"]
    /\ forall k,
         k <> "tags" ->
         dict_get d' k
         = dict_get [("caption", VStr caption_a); ("line_count", VInt 1);
                     ("language", VStr "English");
                     ("tags", VList [VStr "Travel"; VStr "Family"])] k.
Proof.
  exact (rewrite_post_changes_tags_only first_seen (VDict sample_mapping)
           [("caption", VStr caption_a); ("line_count", VInt 1);
            ("language", VStr "English");
            ("tags", VList [VStr "Travel"; VStr "Family"])]
           (enriched_post caption_a [VStr "Travel & Adventure"; VStr "Family & Couples"])
           eq_refl).
Defined.

Lemma rewrite_post_new_tags_witness :
  let m := [("Travel", VStr "Travel & Adventure"); ("Trip", VStr "Travel & Adventure")] in
  let d := [("caption", VStr caption_a); ("tags", VList [VStr "Travel"; VStr "Trip"])] in
  exists new_tags,
    rewrite_post first_seen (VDict m) (VDict d)
      = Ret (VDict (dict_set d "tags" (VList new_tags)))
    /\ NoDup new_tags
    /\ forall x,
         In x new_tags <-> exists t, In t [VStr "Travel"; VStr "Trip"] /\ x = translate m t.
Proof.
  intros m d.
  refine (rewrite_post_new_tags first_seen m d [VStr "Travel"; VStr "Trip"]
            first_seen_python_set _ eq_refl _).
  - intros k v H. unfold m in H. cbn [dict_get] in H.
    destruct (String.eqb "Travel" k); [injection H as <-; eexists; reflexivity|].
    destruct (String.eqb "Trip" k); [injection H as <-; eexists; reflexivity|].
    discriminate.
  - texts.
Defined.

(** ** Whole runs of [process_posts] *)

Section WholeRuns.

Variable llm : nat -> chain_input -> string.
Variable set_iter : list value -> list value.

Lemma load_keeps_world (raw : string) (w w' : world) (r : outcome value) :
  load raw w = (r, w') -> w' = w.
Proof.
  unfold load. destruct (files w raw) as [[content|v|]|]; intro H;
    injection H as _ <-; reflexivity.
Qed.

(** One unification call at most, and no file written. *)
Lemma get_unified_tags_footprint (posts : list value) (r : outcome value)
  (w w' : world) :
  get_unified_tags llm set_iter posts w = (r, w') ->
  files w' = files w /\ faults w' = faults w
  /\ (calls w' = calls w \/ exists t, calls w' = (calls w ++ [UnificationInput t])%list).
Proof.
  rewrite get_unified_tags_cases. intro H.
  destruct (collect_tags posts []) as [[|x unique]|e];
    try (injection H as _ <-; auto).
  destruct (traverse as_str _) as [names|e]; [|injection H as _ <-; auto].
  cbv zeta in H. destruct (clean_json_response _) as [v|e].
  - injection H as _ <-. repeat split. right. eexists. reflexivity.
  - destruct e; injection H as _ <-; repeat split; right; eexists; reflexivity.
Qed.

(** After the first loop: the destination is the only file that can
    change, and the model is called once more at most, for the
    unification. *)
Lemma finish_footprint (enriched : list value) (dst : option string)
  (r : outcome unit) (w w' : world) :
  finish llm set_iter enriched dst w = (r, w') ->
  faults w' = faults w
  /\ (forall p, dst <> Some p -> files w' p = files w p)
  /\ (calls w' = calls w \/ exists t, calls w' = (calls w ++ [UnificationInput t])%list).
Proof.
  destruct enriched as [|post rest].
  - cbn [finish]. unfold print. intro H. injection H as _ <-. auto.
  - unfold finish. unfold bind at 1, attempt at 1.
    destruct (get_unified_tags llm set_iter (post :: rest) w) as [u w1] eqn:Eu.
    destruct (get_unified_tags_footprint _ _ _ _ Eu) as (Hf & Hg & Hc).
    destruct u as [unified|e].
    + unfold bind at 1, lift at 1.
      destruct (traverse (rewrite_post set_iter unified) (post :: rest))
        as [rewritten|e].
      * unfold bind, attempt, dump, print, raise, ret.
        destruct dst as [p|].
        -- destruct (faults w1 p) as [[|]|] eqn:Ep; intro H; injection H as _ <-;
             cbn [put_line put_file files faults calls];
             (split; [exact Hg|]); (split; [|exact Hc]);
             intros q Hq; try (rewrite Hf; reflexivity);
             destruct (String.eqb_spec q p) as [->|_];
             try congruence; rewrite Hf; reflexivity.
        -- intro H. injection H as _ <-. rewrite Hf. auto.
      * intro H. injection H as _ <-. rewrite Hf. auto.
    + destruct e; unfold print, raise; intro H; injection H as _ <-;
        cbn [put_line files faults calls]; rewrite ?Hf; auto.
Qed.

(** X17. A failure of the unification to parse is fatal for the batch
    but does not raise: when [get_unified_tags] raises an
    [OutputParserException], [process_posts] prints it and returns; no
    post is written, however many were enriched. *)
Theorem unification_failure_is_reported (raw : string) (dst : option string)
  (posts : value) (items enriched : list value) (msg : string) (w w1 w2 : world) :
  load raw w = (Ret posts, w) ->
  iter posts = Ret items ->
  enrich llm items [] w = (Ret enriched, w1) ->
  enriched <> [] ->
  get_unified_tags llm set_iter enriched w1 = (Raise (OutputParserException msg), w2) ->
  process_posts llm set_iter raw dst w
  = (Ret tt, put_line (ErrorUnifyingTags (OutputParserException msg)) w2)
  /\ files w2 = files w.
Proof.
  intros Hl Hi He Hne Hu. split.
  - rewrite (process_posts_enriched _ _ _ _ _ _ _ _ _ Hl Hi He).
    rewrite (finish_unification_raises _ _ _ _ _ _ _ Hne Hu). reflexivity.
  - destruct (get_unified_tags_footprint _ _ _ _ Hu) as (Hf & _).
    destruct (enrich_footprint llm _ _ _ _ _ He) as (Hf' & _). congruence.
Qed.

(** X18. Whatever the source file, the responses and the outcome,
    [process_posts] touches no file other than the destination, and its
    calls to the model are extraction calls followed by one unification
    call at most. *)
Theorem process_posts_footprint (raw : string) (dst : option string)
  (r : outcome unit) (w w' : world) :
  process_posts llm set_iter raw dst w = (r, w') ->
  faults w' = faults w
  /\ (forall p, dst <> Some p -> files w' p = files w p)
  /\ exists cs us,
       calls w' = (calls w ++ cs ++ us)%list
       /\ Forall is_extraction cs
       /\ (us = [] \/ exists t, us = [UnificationInput t]).
Proof.
  assert (Hsame : forall w0 : world,
            faults w0 = faults w0
            /\ (forall p, dst <> Some p -> files w0 p = files w0 p)
            /\ exists cs us,
                 calls w0 = (calls w0 ++ cs ++ us)%list
                 /\ Forall is_extraction cs
                 /\ (us = [] \/ exists t, us = [UnificationInput t])).
  { intro w0. repeat split. exists [], []. rewrite app_nil_r. auto. }
  unfold process_posts. unfold bind at 1, attempt at 1.
  destruct (load raw w) as [l w0] eqn:El. apply load_keeps_world in El. subst w0.
  destruct l as [posts|e].
  - unfold bind at 1, lift at 1. destruct (iter posts) as [items|e].
    + unfold run_batch, bind.
      destruct (enrich llm items [] w) as [[enriched|e] w1] eqn:Ee;
        destruct (enrich_footprint llm _ _ _ _ _ Ee) as (Hf & Hg & cs & Hc & Hcs).
      * intro H. destruct (finish_footprint _ _ _ _ _ H) as (Hg' & Hf' & Hc').
        split; [congruence|]. split.
        -- intros p Hp. rewrite (Hf' p Hp), Hf. reflexivity.
        -- destruct Hc' as [Hc' | [t Hc']].
           ++ exists cs, []. rewrite app_nil_r. split; [congruence | auto].
           ++ exists cs, [UnificationInput t]. rewrite Hc', Hc, app_assoc. eauto.
      * intro H. injection H as _ <-. split; [exact Hg|].
        split; [intros; rewrite Hf; reflexivity|].
        exists cs, []. rewrite app_nil_r. auto.
    + intro H. injection H as _ <-. apply Hsame.
  - destruct e; unfold print, raise; intro H; injection H as _ <-;
      try apply Hsame;
      cbn [put_line files faults calls]; repeat split;
      exists [], []; rewrite app_nil_r; auto.
Qed.

(** X19. The default destination cannot be written: with
    [processed_file_path] left to [None], a run that enriches posts and
    unifies their tags ends with a [TypeError] that nothing catches,
    after all its calls to the model, and writes nothing. *)
Theorem default_destination_raises (raw : string) (posts : value)
  (items enriched rewritten : list value) (unified : value) (w w1 w2 : world) :
  load raw w = (Ret posts, w) ->
  iter posts = Ret items ->
  enrich llm items [] w = (Ret enriched, w1) ->
  enriched <> [] ->
  get_unified_tags llm set_iter enriched w1 = (Ret unified, w2) ->
  traverse (rewrite_post set_iter unified) enriched = Ret rewritten ->
  process_posts llm set_iter raw None w = (Raise TypeError, w2)
  /\ files w2 = files w.
Proof.
  intros Hl Hi He Hne Hu Hrw. split.
  - rewrite (process_posts_enriched _ _ _ _ _ _ _ _ _ Hl Hi He).
    rewrite (finish_unified _ _ _ _ _ _ _ _ Hne Hu Hrw). reflexivity.
  - destruct (get_unified_tags_footprint _ _ _ _ Hu) as (Hf & _).
    destruct (enrich_footprint llm _ _ _ _ _ He) as (Hf' & _). congruence.
Qed.

(** X20. A source file that holds a JSON text which is not a sequence
    (null, a boolean, a number) is not reported as malformed: the loop
    over the posts raises a [TypeError] that nothing catches; nothing is
    printed, asked or written. *)
Theorem scalar_source_raises (raw : string) (dst : option string)
  (posts : value) (w : world) :
  load raw w = (Ret posts, w) ->
  hashable posts = true ->
  (forall s, posts <> VStr s) ->
  process_posts llm set_iter raw dst w = (Raise TypeError, w).
Proof.
  intros Hl Hh Hs. unfold process_posts.
  rewrite (bind_returns _ _ _ _ _ (attempt_outcome _ _ _ _ Hl)).
  unfold bind, lift. destruct posts; try discriminate Hh; try reflexivity.
  exfalso. exact (Hs _ eq_refl).
Qed.

End WholeRuns.

(** ** Runs on well-typed data *)

Section CompleteRuns.

Variable llm : nat -> chain_input -> string.
Variable set_iter : list value -> list value.
Hypothesis set_model : python_set set_iter.

Lemma traverse_rewrite_texts (m : dict) (enriched : list value) :
  tag_mapping m ->
  Forall text_tags enriched ->
  exists rewritten,
    traverse (rewrite_post set_iter (VDict m)) enriched = Ret rewritten
    /\ Forall2 (rewritten_with m) enriched rewritten.
Proof.
  intros Hm H. induction H as [|post rest (d & tags & -> & Hd & Ht) _ (rewritten & Hr & H2)].
  - exists []. split; [reflexivity | constructor].
  - pose proof (Forall_is_str_translate m tags Hm Ht) as Hs.
    exists (VDict (dict_set d "tags" (VList (set_iter (map (translate m) tags))))
            :: rewritten).
    split.
    + cbn [traverse]. unfold rewrite_post at 1. cbn [getitem]. rewrite Hd.
      cbn [obind iter]. rewrite unify_tags_texts by assumption.
      cbn [obind setitem]. rewrite Hr. reflexivity.
    + constructor; [|exact H2].
      exists d, tags, (set_iter (map (translate m) tags)).
      split; [reflexivity|]. split; [exact Hd|]. split; [reflexivity|]. split.
      * destruct set_model as (_ & _ & Hnd). apply Hnd. exact Hs.
      * intro x. rewrite (set_iter_members set_iter set_model _ x Hs), in_map_iff.
        split; intros (t & H1 & H3); exists t; auto.
Qed.

(** X21. On well-typed data the run completes. When the enriched posts
    have lists of texts as tags, with at least one tag, the response to
    the unification parses to a mapping from texts to texts and the
    destination can be written, [process_posts] returns after one
    unification call and the destination holds one post per enriched
    post, in order, each with its tags replaced by their images under
    the mapping; nothing is printed after the first loop. *)
Theorem well_typed_run_completes (raw p : string) (posts : value)
  (items enriched : list value) (m : dict) (w w1 : world) :
  load raw w = (Ret posts, w) ->
  iter posts = Ret items ->
  enrich llm items [] w = (Ret enriched, w1) ->
  Forall text_tags enriched ->
  all_tags enriched <> [] ->
  (forall input,
     clean_json_response (llm (List.length (calls w1)) input) = Ret (VDict m)) ->
  tag_mapping m ->
  faults w p = None ->
  exists rewritten listing,
    process_posts llm set_iter raw (Some p) w
    = (Ret tt,
       put_file p (Dump (VList rewritten))
         (record_call (UnificationInput listing) w1))
    /\ Forall2 (rewritten_with m) enriched rewritten.
Proof.
  intros Hl Hi He Htags Hne Hresp Hm Hp.
  destruct (collect_tags_text enriched [] Htags) as [Hc Hs]. cbn [app] in Hc.
  destruct (traverse_as_str_texts _ (Forall_is_str_set_iter set_iter set_model _ Hs))
    as [names Hn].
  destruct (traverse_rewrite_texts m enriched Hm Htags) as (rewritten & Hrw & H2).
  assert (Hen : enriched <> []) by (intros ->; apply Hne; reflexivity).
  pose proof (get_unified_tags_returns llm set_iter enriched _ names (VDict m) w1
                Hc Hne Hn (Hresp _)) as Hu.
  exists rewritten, (join "," names). split; [|exact H2].
  rewrite (process_posts_enriched _ _ _ _ _ _ _ _ _ Hl Hi He).
  rewrite (finish_unified _ _ _ _ _ _ _ _ Hen Hu Hrw).
  unfold dump. cbn [record_call faults].
  destruct (enrich_footprint llm _ _ _ _ _ He) as (_ & Hg & _).
  rewrite Hg, Hp. reflexivity.
Qed.

End CompleteRuns.

Lemma unification_failure_is_reported_witness :
  let enriched := [enriched_post caption_a [VStr "Job Search"];
                   enriched_post caption_b [VStr "Job Search"]] in
  let w1 := snd (enrich stubborn_llm [post_a; post_b] [] batch_world) in
  let w2 := snd (get_unified_tags stubborn_llm first_seen enriched w1) in
  process_posts stubborn_llm first_seen raw_posts_path (Some processed_posts_path)
    batch_world
  = (Ret tt, put_line (ErrorUnifyingTags (OutputParserException refusal)) w2)
  /\ files w2 = files batch_world.
Proof.
  intros enriched w1 w2.
  refine (unification_failure_is_reported stubborn_llm first_seen raw_posts_path
            (Some processed_posts_path) (VList [post_a; post_b]) [post_a; post_b]
            enriched refusal batch_world w1 w2 _ eq_refl _ _ _).
  - vm_compute. reflexivity.
  - vm_compute. reflexivity.
  - discriminate.
  - vm_compute. reflexivity.
Defined.

Lemma process_posts_footprint_witness :
  let run := process_posts scenario_llm first_seen raw_posts_path
               (Some processed_posts_path) batch_world in
  faults (snd run) = faults batch_world
  /\ (forall p, Some processed_posts_path <> Some p ->
                files (snd run) p = files batch_world p)
  /\ exists cs us,
       calls (snd run) = (calls batch_world ++ cs ++ us)%list
       /\ Forall is_extraction cs
       /\ (us = [] \/ exists t, us = [UnificationInput t]).
Proof.
  intro run.
  refine (process_posts_footprint scenario_llm first_seen raw_posts_path
            (Some processed_posts_path) (fst run) batch_world (snd run) _).
  unfold run. destruct (process_posts _ _ _ _ _). reflexivity.
Defined.

Lemma default_destination_raises_witness :
  let enriched := [enriched_post caption_a [VStr "Travel"; VStr "Family"];
                   enriched_post caption_b [VStr "Job Search"]] in
  let w1 := snd (enrich scenario_llm [post_a; post_b] [] batch_world) in
  let w2 := snd (get_unified_tags scenario_llm first_seen enriched w1) in
  process_posts scenario_llm first_seen raw_posts_path None batch_world
  = (Raise TypeError, w2)
  /\ files w2 = files batch_world.
Proof.
  intros enriched w1 w2.
  refine (default_destination_raises scenario_llm first_seen raw_posts_path
            (VList [post_a; post_b]) [post_a; post_b] enriched
            [enriched_post caption_a [VStr "Travel & Adventure"; VStr "Family & Couples"];
             enriched_post caption_b [VStr "Job Search"]]
            (VDict sample_mapping) batch_world w1 w2 _ eq_refl _ _ _ _).
  - vm_compute. reflexivity.
  - vm_compute. reflexivity.
  - discriminate.
  - vm_compute. reflexivity.
  - vm_compute. reflexivity.
Defined.

Lemma scalar_source_raises_witness :
  process_posts silent_llm first_seen raw_posts_path (Some processed_posts_path)
    scalar_world
  = (Raise TypeError, scalar_world).
Proof.
  refine (scalar_source_raises silent_llm first_seen raw_posts_path
            (Some processed_posts_path) (VInt 42) scalar_world _ eq_refl _).
  - vm_compute. reflexivity.
  - discriminate.
Defined.

Lemma well_typed_run_completes_witness :
  let enriched := [enriched_post caption_a [VStr "Travel"; VStr "Family"];
                   enriched_post caption_b [VStr "Job Search"]] in
  let w1 := snd (enrich scenario_llm [post_a; post_b] [] batch_world) in
  exists rewritten listing,
    process_posts scenario_llm first_seen raw_posts_path (Some processed_posts_path)
      batch_world
    = (Ret tt,
       put_file processed_posts_path (Dump (VList rewritten))
         (record_call (UnificationInput listing) w1))
    /\ Forall2 (rewritten_with sample_mapping) enriched rewritten.
Proof.
  intros enriched w1.
  refine (well_typed_run_completes scenario_llm first_seen first_seen_python_set
            raw_posts_path processed_posts_path (VList [post_a; post_b])
            [post_a; post_b] enriched sample_mapping batch_world w1
            _ eq_refl _ _ _ _ sample_mapping_texts eq_refl).
  - vm_compute. reflexivity.
  - vm_compute. reflexivity.
  - repeat constructor; eexists _, _; (split; [reflexivity|]); (split; [reflexivity|]);
      texts.
  - discriminate.
  - intro input. vm_compute. reflexivity.
Defined.
